(** * Comment-wise batching and CRF fine-tuning script of arg-mining

    A shallow embedding of
    [exp_scripts/segmentation/5_cons_ft_runs_bert_Kripp_alpha.py] and of
    [datasets/persuasive_essays/configs.py].

    Python integers are [Z], Python lists are [list], the dictionary
    [arg_components] is a [gmap string Z], exceptions are an error monad,
    the generator is the sequence of its yields followed by the way it
    ends, and tensors of floating point numbers are read over the real
    numbers. *)

From Stdlib Require Import ZArith Reals Lra Lia ZifyNat.
From stdpp Require Import base option list gmap strings pretty.

Local Open Scope Z_scope.

(** ** Python runtime: exceptions, slices, [%] and [max] *)

Module Py.

Inductive exn : Set :=
| ValueError
| ZeroDivisionError
| KeyError
| IndexError
| TypeError
| RuntimeError.

Inductive result (A : Type) : Type :=
| Ok (a : A)
| Raise (e : exn).
Arguments Ok {A} a.
Arguments Raise {A} e.

#[export] Instance result_ret : MRet result := fun A a => Ok a.

#[export] Instance result_bind : MBind result := fun A B k r =>
  match r with
  | Ok a => k a
  | Raise e => Raise e
  end.

Definition raises {A} (r : result A) : Prop :=
  match r with
  | Ok _ => False
  | Raise _ => True
  end.

(** [x in xs] on a list of integers. *)
Definition contains (elem : Z) (xs : list Z) : bool :=
  existsb (Z.eqb elem) xs.

(** [xs[:n]]: a negative bound counts from the end. *)
Definition slice_to {A} (xs : list A) (n : Z) : list A :=
  if 0 <=? n then take (Z.to_nat n) xs
  else take (length xs - Z.to_nat (- n))%nat xs.

(** [a % b]: the sign follows the divisor, a zero divisor raises. *)
Definition mod_ (a b : Z) : result Z :=
  if b =? 0 then Raise ZeroDivisionError else Ok (a mod b).

(** [max(xs)] raises [ValueError] on an empty sequence. *)
Definition max_ (xs : list nat) : result nat :=
  match xs with
  | [] => Raise ValueError
  | x :: rest => Ok (fold_left Nat.max rest x)
  end.

(** [d[k]] on a dictionary with string keys. *)
Definition getitem (d : gmap string Z) (k : string) : result Z :=
  match d !! k with
  | Some v => Ok v
  | None => Raise KeyError
  end.

End Py.
Import Py.

(** ** The thread splitter *)

(** [splitted[-1].append(elem)] *)
Fixpoint append_to_last (splitted : list (list Z)) (elem : Z)
  : list (list Z) :=
  match splitted with
  | [] => []
  | [component] => [component ++ [elem]]
  | component :: rest => component :: append_to_last rest elem
  end.

(** The [for] loop of [split_encoding], with [splitted] as its state. *)
Fixpoint split_loop (split_on : list Z) (eos_token_id : Z)
    (splitted : list (list Z)) (tokenized_thread : list Z)
  : list (list Z) :=
  match tokenized_thread with
  | [] => splitted
  | elem :: rest =>
      let splitted :=
        if contains elem split_on then splitted ++ [[]] else splitted in
      let splitted := append_to_last splitted elem in
      if elem =? eos_token_id then splitted
      else split_loop split_on eos_token_id splitted rest
  end.

Definition split_encoding (tokenized_thread split_on : list Z)
    (eos_token_id : Z) : list (list Z) :=
  split_loop split_on eos_token_id [[]] tokenized_thread.

(** ** The batch padder *)

Definition pad_batch (elems : list (list Z)) (pad_token_id : Z)
  : result (list (list Z)) :=
  max_len ← max_ (map length elems);
  Ok (map (fun elem => elem ++ replicate (max_len - length elem) pad_token_id)
          elems).

(** ** The tokenizer and the data configuration

    Both are globals of the script.  [data_config] is imported from the
    [cmv_modes] data set package; it is a parameter here, with the keys
    the script reads. *)

Record tokenizer := {
  encode : string -> list Z;
  pad_token_id : Z;
  eos_token_id : Z;
  mask_token_id : Z
}.

Record data_config := {
  arg_components : gmap string Z;
  pad_for_comp_type_labels : Z;
  max_users : Z;
  batch_size : Z
}.

(** The text the user markers are encoded from: "[UNU]", then
    "[USER0]", "[USER1]", ... for [range(max_users)], joined. *)
Definition user_tokens_text (cfg : data_config) : string :=
  String.append "[UNU]"
    (String.concat EmptyString
       (map (fun i : nat => String.append "[USER" (String.append (pretty i) "]"))
            (seq 0 (Z.to_nat (max_users cfg))))).

(** [xs[1:-1]] *)
Definition strip_ends {A} (xs : list A) : list A :=
  slice_to (drop 1 xs) (-1).

Definition user_token_indices (tok : tokenizer) (cfg : data_config) : list Z :=
  strip_ends (encode tok (user_tokens_text cfg)).

(** ** The comment-wise data set generator *)

(** What a generator does when it is iterated to its end: the values it
    yields, in order, and then either [StopIteration] or an exception. *)
Inductive generated (B : Type) : Type :=
| Stop
| Yield (b : B) (rest : generated B)
| Throw (e : exn).
Arguments Stop {B}.
Arguments Yield {B} b rest.
Arguments Throw {B} e.

Fixpoint yielded {B} (g : generated B) : list B :=
  match g with
  | Yield b rest => b :: yielded rest
  | _ => []
  end.

Fixpoint thrown {B} (g : generated B) : option exn :=
  match g with
  | Stop => None
  | Yield _ rest => thrown rest
  | Throw e => Some e
  end.

(** Three parallel lists of rows: tokens, masks, labels. *)
Definition streams : Type := list (list Z) * list (list Z) * list (list Z).

Definition no_rows : streams := ([], [], []).

(** An element of the thread-level data set: three arrays with a leading
    device axis and a fourth field the generator ignores. *)
Definition thread_batch (X : Type) : Type :=
  list (list (list Z)) * list (list (list Z)) * list (list (list Z)) * X.

(** [np.squeeze(a, axis=0)]: the axis must have size one. *)
Definition squeeze0 {A} (a : list A) : result A :=
  match a with
  | [x] => Ok x
  | _ => Raise ValueError
  end.

(** The innermost loop, lines 109 to 113: one triple per comment, the mask
    and label cursors moving on by the comment's length. *)
Fixpoint append_comments (splitted_encodings : list (list Z))
    (masked_thread comp_type_label : list Z) (cw : streams) : streams :=
  match splitted_encodings with
  | [] => cw
  | elem :: rest =>
      let '(toks, masks, labels) := cw in
      append_comments rest
        (drop (length elem) masked_thread)
        (drop (length elem) comp_type_label)
        (toks ++ [elem],
         masks ++ [take (length elem) masked_thread],
         labels ++ [take (length elem) comp_type_label])
  end.

(** The loop over [zip(tokenized_threads, masked_threads, comp_type_labels)]. *)
Fixpoint append_threads (split_on : list Z) (eos : Z)
    (tokenized_threads masked_threads comp_type_labels : list (list Z))
    (cw : streams) : streams :=
  match tokenized_threads, masked_threads, comp_type_labels with
  | tokenized_thread :: tts, masked_thread :: mts, comp_type_label :: ctls =>
      append_threads split_on eos tts mts ctls
        (append_comments (split_encoding tokenized_thread split_on eos)
                         masked_thread comp_type_label cw)
  | _, _, _ => cw
  end.

(** The loop over the data set, lines 102 to 113. *)
Fixpoint collect_comments {X} (split_on : list Z) (eos : Z)
    (dataset : list (thread_batch X)) (cw : streams) : result streams :=
  match dataset with
  | [] => Ok cw
  | (tokenized_threads, masked_threads, comp_type_labels, _) :: rest =>
      tokenized_threads ← squeeze0 tokenized_threads;
      masked_threads ← squeeze0 masked_threads;
      comp_type_labels ← squeeze0 comp_type_labels;
      collect_comments split_on eos rest
        (append_threads split_on eos
           tokenized_threads masked_threads comp_type_labels cw)
  end.

(** The three [pad_batch] calls of the [yield]. *)
Definition pad_streams (tok : tokenizer) (cfg : data_config) (cw : streams)
  : result streams :=
  let '(toks, masks, labels) := cw in
  toks ← pad_batch toks (pad_token_id tok);
  masks ← pad_batch masks (pad_token_id tok);
  labels ← pad_batch labels (pad_for_comp_type_labels cfg);
  Ok (toks, masks, labels).

(** The [while] loop, lines 116 to 127.  The three lists hold the rows from
    index [i] on; an index past the end of a shorter list raises. *)
Fixpoint batch_loop (tok : tokenizer) (cfg : data_config)
    (max_len batch_size : Z) (i : Z)
    (toks masks labels : list (list Z)) (cw : streams)
  : generated streams :=
  match toks with
  | [] => Stop
  | t :: toks =>
      match masks, labels with
      | m :: masks, l :: labels =>
          let '(cw_toks, cw_masks, cw_labels) := cw in
          let cw := (cw_toks ++ [slice_to t max_len],
                     cw_masks ++ [slice_to m max_len],
                     cw_labels ++ [slice_to l max_len]) in
          let i := i + 1 in
          match mod_ i batch_size with
          | Raise e => Throw e
          | Ok r =>
              if r =? 0 then
                match pad_streams tok cfg cw with
                | Raise e => Throw e
                | Ok batch =>
                    Yield batch
                      (batch_loop tok cfg max_len batch_size i
                                  toks masks labels no_rows)
                end
              else batch_loop tok cfg max_len batch_size i
                              toks masks labels cw
          end
      | _, _ => Throw IndexError
      end
  end.

Definition get_comment_wise_dataset {X} (tok : tokenizer) (cfg : data_config)
    (dataset : list (thread_batch X)) (max_len batch_size : Z)
  : generated streams :=
  match collect_comments (user_token_indices tok cfg) (eos_token_id tok)
                         dataset no_rows with
  | Raise e => Throw e
  | Ok (toks, masks, labels) =>
      batch_loop tok cfg max_len batch_size 0 toks masks labels no_rows
  end.

(** ** The configuration of the persuasive essays data set *)

Module PersuasiveEssays.

Record config_t := {
  cfg_arg_components : gmap string Z;
  cfg_max_len : Z;
  cfg_batch_size : Z;
  cfg_all_classes : bool;
  cfg_pad_for_tokenized_essays : option Z;
  cfg_pad_for_comp_type_labels : Z
}.

(** [configs.py], statement by statement, for either value of the
    ["all_classes"] entry. *)
Definition make_config (all_classes : bool) : result config_t :=
  let arg_components : gmap string Z :=
    <["I-P" := 4]> (<["B-P" := 3]> (<["I-C" := 2]> (<["B-C" := 1]>
      (<["O" := 0]> ∅)))) in
  pad_label ← getitem arg_components "O";
  let arg_components :=
    if all_classes
    then <["I-MC" := 6]> (<["B-MC" := 5]> arg_components)
    else arg_components in
  Ok {| cfg_arg_components := arg_components;
        cfg_max_len := 512;
        cfg_batch_size := 512 * 8;
        cfg_all_classes := all_classes;
        cfg_pad_for_tokenized_essays := None;
        cfg_pad_for_comp_type_labels := pad_label |}.

(** The file as it stands: ["all_classes": True]. *)
Definition config : result config_t := make_config true.

End PersuasiveEssays.

(** ** Layers of the linear-chain CRF *)

(** [[(ac_dict[a], ac_dict[ct]) for ct in cts]] *)
Fixpoint transitions_from (ac_dict : gmap string Z) (a : string)
    (cts : list string) : result (list (Z * Z)) :=
  match cts with
  | [] => Ok []
  | ct :: rest =>
      from_tag ← getitem ac_dict a;
      to_tag ← getitem ac_dict ct;
      pairs ← transitions_from ac_dict a rest;
      Ok ((from_tag, to_tag) :: pairs)
  end.

Definition allowed_transitions (ac_dict : gmap string Z)
  : result (list (Z * Z)) :=
  bc ← getitem ac_dict "B-C";
  ic ← getitem ac_dict "I-C";
  bp ← getitem ac_dict "B-P";
  ip ← getitem ac_dict "I-P";
  from_ic ← transitions_from ac_dict "I-C" ["I-C"; "B-C"; "B-P"; "O"];
  from_ip ← transitions_from ac_dict "I-P" ["I-P"; "B-C"; "B-P"; "O"];
  from_o ← transitions_from ac_dict "O" ["O"; "B-C"; "B-P"];
  Ok ([(bc, ic); (bp, ip)] ++ from_ic ++ from_ip ++ from_o).

(** The arguments [get_crf_head] builds its two layers with. *)
Record crf_head := {
  in_features : nat;
  out_features : nat;
  num_tags : nat;
  constraints : list (Z * Z);
  include_start_end_transitions : bool
}.

Definition get_crf_head (hidden_size : nat) (ac_dict : gmap string Z)
    (allowed : list (Z * Z)) : crf_head :=
  {| in_features := hidden_size;
     out_features := size ac_dict;
     num_tags := size ac_dict;
     constraints := allowed;
     include_start_end_transitions := false |}.

(** ** Tensors and the library layers *)

(** [torch.tensor(rows)] needs rows of one length. *)
Definition rectangular (rows : list (list Z)) : bool :=
  match rows with
  | [] => true
  | row :: rest => forallb (fun r => Nat.eqb (length r) (length row)) rest
  end.

Definition torch_tensor (rows : list (list Z)) : result (list (list Z)) :=
  if rectangular rows then Ok rows else Raise ValueError.

(** [torch.where(t != v, 1, 0)] and [torch.where(t == v, 1, 0)] *)
Definition where_ne (t : list (list Z)) (v : Z) : list (list Z) :=
  map (map (fun x => if x =? v then 0 else 1)) t.

Definition where_eq (t : list (list Z)) (v : Z) : list (list Z) :=
  map (map (fun x => if x =? v then 1 else 0)) t.

Definition sum_R (xs : list R) : R := foldr Rplus 0%R xs.

(** The encoder, the linear layer and the CRF layer are library objects:
    the script only calls them.  Logits have shape
    [batch, sequence, classes]. *)
Record network := {
  hidden_states : Type;
  transformer_model :
    list (list Z) -> list (list Z) -> result hidden_states;
  linear_layer : hidden_states -> result (list (list (list R)));
  crf_layer :
    list (list (list R)) -> list (list Z) -> list (list Z) -> result R;
  viterbi_tags :
    list (list (list R)) -> list (list Z) -> result (list (list Z * R))
}.

(** [torch.log(torch.tensor([3.3102, 61.4809, 3.6832, 49.6827, 2.5639]))] *)
Definition class_weights : list R :=
  map ln [33102 / 10000; 614809 / 10000; 36832 / 10000;
          496827 / 10000; 25639 / 10000]%R.

(** One entry of [nn.CrossEntropyLoss(weight=w, reduction='none')]: minus
    the weight of the target class times its log-softmax score; the
    default [ignore_index] of -100 gives zero. *)
Definition token_cross_entropy (weight : list R) (x : list R) (y : Z)
  : result R :=
  if y =? -100 then Ok 0%R
  else if (0 <=? y) && (y <? Z.of_nat (length x)) then
    match weight !! Z.to_nat y, x !! Z.to_nat y with
    | Some w, Some xy => Ok (- (w * (xy - ln (sum_R (map exp x)))))%R
    | _, _ => Raise IndexError
    end
  else Raise IndexError.

Fixpoint token_losses (weight : list R) (input : list (list R))
    (target : list Z) : result (list R) :=
  match input, target with
  | x :: input, y :: target =>
      loss ← token_cross_entropy weight x y;
      losses ← token_losses weight input target;
      Ok (loss :: losses)
  | _, _ => Ok []
  end.

(** [cross_entropy_layer(input, target)] on an input of shape
    [N, num_classes]: the target must have [N] entries and the weight one
    entry per class. *)
Definition cross_entropy_layer (num_classes : nat) (input : list (list R))
    (target : list Z) : result (list R) :=
  if negb (Nat.eqb (length input) (length target)) then Raise ValueError
  else if negb (Nat.eqb (length class_weights) num_classes)
  then Raise RuntimeError
  else token_losses class_weights input target.

(** [a * b] on tensors of one axis, with broadcasting of a single entry. *)
Definition mul_1d (a b : list R) : result (list R) :=
  if Nat.eqb (length a) (length b) then Ok (zip_with Rmult a b)
  else
    match a, b with
    | [x], _ => Ok (map (Rmult x) b)
    | _, [y] => Ok (map (fun x => x * y)%R a)
    | _, _ => Raise RuntimeError
    end.

(** ** Loss and prediction *)

Inductive computed : Type :=
| Loss (value : R)
| Preds (tagged : list (list Z * R)).

(** [logits.shape[-1]] is the output width of [linear_layer], the
    [out_features] it was built with. *)
Definition compute (tok : tokenizer) (net : network) (head : crf_head)
    (batch : list (list Z) * list (list Z) * list (list Z))
    (preds cross_entropy : bool) : result computed :=
  let '(tokenized_threads, token_type_ids, comp_type_labels) := batch in
  let pad_mask := where_ne tokenized_threads (pad_token_id tok) in
  hidden ← transformer_model net tokenized_threads pad_mask;
  logits ← linear_layer net hidden;
  if preds then
    tagged ← viterbi_tags net logits pad_mask;
    Ok (Preds tagged)
  else
    log_likelihood ← crf_layer net logits comp_type_labels pad_mask;
    if cross_entropy then
      let logits := concat logits in
      let pad_mask := concat pad_mask in
      let comp_type_labels := concat comp_type_labels in
      losses ← cross_entropy_layer (out_features head) logits comp_type_labels;
      masked ← mul_1d (map IZR pad_mask) losses;
      Ok (Loss (sum_R masked - log_likelihood))
    else Ok (Loss (- log_likelihood)).

(** ** The training loop *)

(** What the loop does to the optimizer and the loss, in order. *)
Inductive event : Type :=
| ZeroGrad
| Print (loss : R)
| Backward (loss : R)
| Step.

Definition accumulate_over : Z := 4.

(** A tensor divided by a Python number. *)
Definition div_loss (c : computed) (n : Z) : result R :=
  match c with
  | Loss v => Ok (v / IZR n)%R
  | Preds _ => Raise TypeError
  end.

(** Lines 214 to 220: the loss of one batch. *)
Definition batch_loss (tok : tokenizer) (cfg : data_config) (net : network)
    (head : crf_head) (batch : streams) : result R :=
  let '(tokenized_threads, masked_threads, comp_type_labels) := batch in
  tokenized_threads ← torch_tensor tokenized_threads;
  masked_threads ← torch_tensor masked_threads;
  comp_type_labels ← torch_tensor comp_type_labels;
  c ← compute tok net head
        (tokenized_threads,
         where_eq masked_threads (mask_token_id tok),
         comp_type_labels) false true;
  div_loss c (batch_size cfg).

(** The body of the [for] loop over the batches the generator yields; the
    events up to the end of the loop or to the exception that ends it. *)
Fixpoint train_loop (tok : tokenizer) (cfg : data_config) (net : network)
    (head : crf_head) (i : Z) (batches : generated streams)
  : list event * option exn :=
  match batches with
  | Stop => ([], None)
  | Throw e => ([], Some e)
  | Yield batch rest =>
      match batch_loss tok cfg net head batch with
      | Raise e => ([], Some e)
      | Ok loss =>
          let stepped :=
            if i mod accumulate_over =? accumulate_over - 1
            then [Step; ZeroGrad] else [] in
          let '(events, ended) := train_loop tok cfg net head (i + 1) rest in
          ([Print loss; Backward loss] ++ stepped ++ events, ended)
      end
  end.

Definition train {X} (tok : tokenizer) (cfg : data_config) (net : network)
    (head : crf_head) (dataset : list (thread_batch X))
  : list event * option exn :=
  let '(events, ended) :=
    train_loop tok cfg net head 0
      (get_comment_wise_dataset tok cfg dataset 512 8) in
  match ended with
  | None => (ZeroGrad :: events ++ [Step], None)
  | Some e => (ZeroGrad :: events, Some e)
  end.

(** ** Specification-side definitions *)

(** The input up to and including the first terminator, all of it when
    there is none. *)
Fixpoint truncate_at (eos_token_id : Z) (thread : list Z) : list Z :=
  match thread with
  | [] => []
  | elem :: rest =>
      if elem =? eos_token_id then [elem]
      else elem :: truncate_at eos_token_id rest
  end.

Definition sentinel_free (split_on : list Z) (component : list Z) : Prop :=
  Forall (fun x => contains x split_on = false) component.

(** A component that a sentinel opened: the sentinel, then no other. *)
Definition opened_by_sentinel (split_on : list Z) (component : list Z) : Prop :=
  exists s body,
    component = s :: body /\ contains s split_on = true /\
    sentinel_free split_on body.

(** The shape of a splitter output: a first component without sentinel,
    then components that each start with their only sentinel. *)
Definition well_split (split_on : list Z) (splitted : list (list Z)) : Prop :=
  match splitted with
  | [] => False
  | first :: others =>
      sentinel_free split_on first /\
      Forall (opened_by_sentinel split_on) others
  end.

(** Row [j] of a thread-level array, under its device axis. *)
Definition thread_row (a : list (list (list Z))) (j : nat) : option (list Z) :=
  a !! 0%nat ≫= (.!! j).

(** The data model of a thread-level batch: the mask and the labels of a
    thread cover each of its tokens. *)
Definition covers_tokens {X} (tb : thread_batch X) : Prop :=
  let '(tokenized_threads, masked_threads, comp_type_labels, _) := tb in
  forall j t m l,
    thread_row tokenized_threads j = Some t ->
    thread_row masked_threads j = Some m ->
    thread_row comp_type_labels j = Some l ->
    (length t <= length m)%nat /\ (length t <= length l)%nat.

(** Three streams whose rows have the same lengths, index by index. *)
Definition aligned (s : streams) : Prop :=
  let '(toks, masks, labels) := s in
  map length toks = map length masks /\ map length toks = map length labels.

(** The number of rows of a batch. *)
Definition rows (s : streams) : nat := length s.1.1.

(** A batch whose three streams have as many rows, the rows of one index
    being of one length. *)
Definition triples_same_length (s : streams) : Prop :=
  let '(toks, masks, labels) := s in
  length toks = length masks /\ length toks = length labels /\
  forall i t m l,
    toks !! i = Some t -> masks !! i = Some m -> labels !! i = Some l ->
    length t = length m /\ length m = length l.

(** The probability that the softmax of the scores [x] gives class [y]. *)
Definition softmax (x : list R) (y : nat) : R :=
  (exp (nth y x 0) / sum_R (map exp x))%R.

(** The class-weighted cross-entropy of one token with scores [x] and
    label [y]. *)
Definition weighted_cross_entropy (x : list R) (y : Z) : R :=
  (- (nth (Z.to_nat y) class_weights 0 * ln (softmax x (Z.to_nat y))))%R.

(** The positions of a flattened batch: token, scores, label. *)
Definition positions (tokens : list Z) (logits : list (list R))
    (labels : list Z) : list (Z * list R * Z) :=
  zip (zip tokens logits) labels.

(** The weighted cross-entropy summed over the positions whose token is
    not the pad token. *)
Definition masked_cross_entropy (pad : Z) (tokens : list Z)
    (logits : list (list R)) (labels : list Z) : R :=
  sum_R (map (fun p => weighted_cross_entropy p.1.2 p.2)
             (filter (fun p => p.1.1 <> pad)
                     (positions tokens logits labels))).

(** The same sum divided by the number of non-pad positions. *)
Definition length_normalized_cross_entropy (pad : Z) (tokens : list Z)
    (logits : list (list R)) (labels : list Z) : R :=
  (masked_cross_entropy pad tokens logits labels /
   INR (length (filter (fun t => t <> pad) tokens)))%R.

(** The events of the batch of index [k], counted from zero, with loss
    [v]: an optimizer step and a gradient reset close every fourth batch. *)
Definition batch_events (k : nat) (v : R) : list event :=
  [Print v; Backward v] ++
  (if Nat.eqb ((k + 1) mod 4) 0 then [Step; ZeroGrad] else []).

Definition is_step (e : event) : bool :=
  match e with
  | Step => true
  | _ => false
  end.

Definition count_steps (events : list event) : nat :=
  length (List.filter is_step events).

(** The tokenizer with another id for its mask token. *)
Definition with_mask_token_id (tok : tokenizer) (v : Z) : tokenizer :=
  {| encode := encode tok;
     pad_token_id := pad_token_id tok;
     eos_token_id := eos_token_id tok;
     mask_token_id := v |}.

(** ** A small instance

    A tokenizer with the ids of BERT ([PAD] 0, [SEP] 102, [MASK] 103) and
    two user markers, a five-tag configuration, and one thread batch of two
    threads that split into three comments each. *)

Module Demo.

Definition tok : tokenizer :=
  {| encode := fun _ => [101; 28996; 28997; 102];
     pad_token_id := 0;
     eos_token_id := 102;
     mask_token_id := 103 |}.

Definition cfg : data_config :=
  {| arg_components :=
       <["I-P" := 4]> (<["B-P" := 3]> (<["I-C" := 2]> (<["B-C" := 1]>
         (<["O" := 0]> ∅))));
     pad_for_comp_type_labels := 0;
     max_users := 2;
     batch_size := 16 |}.

Definition dataset : list (thread_batch unit) :=
  [([[[5; 6; 28996; 7; 28997; 8; 102; 0];
      [28996; 9; 28997; 10; 11; 102; 0; 0]]],
    [[[5; 103; 28996; 7; 28997; 103; 102; 0];
      [28996; 103; 28997; 10; 11; 102; 0; 0]]],
    [[[0; 0; 0; 1; 0; 3; 0; 0];
      [0; 1; 0; 3; 4; 0; 0; 0]]],
    tt)].

(** A network whose linear layer has zero weights, so that every score
    is zero, under a likelihood and a decoder that return constants. *)
Definition net : network :=
  {| hidden_states := list (list Z);
     transformer_model := fun input_ids attention_mask => Ok input_ids;
     linear_layer := fun h => Ok (map (map (fun _ => [0; 0; 0; 0; 0]%R)) h);
     crf_layer := fun logits labels mask => Ok (-1)%R;
     viterbi_tags := fun logits mask =>
       Ok (map (fun row => (map (fun _ => 0) row, 0%R)) logits) |}.

Definition head : crf_head :=
  get_crf_head 768 (arg_components cfg)
    [(1, 2); (3, 4); (2, 2); (2, 1); (2, 3); (2, 0);
     (4, 4); (4, 1); (4, 3); (4, 0); (0, 0); (0, 1); (0, 3)].

(** Four thread batches of one thread of eight comments each: four
    batches of eight comments for the training loop. *)
Definition long_thread : list Z :=
  [5; 28996; 6; 28997; 7; 28996; 8; 28997; 9; 28996; 10; 28997; 11;
   28996; 12; 102].

Definition long_labels : list Z :=
  [0; 0; 1; 0; 3; 0; 0; 0; 1; 0; 3; 0; 0; 0; 1; 2].

Definition long_dataset : list (thread_batch unit) :=
  replicate 4 ([[long_thread]], [[long_thread]], [[long_labels]], tt).

(** The batch of the first four comments. *)
Definition batch : streams :=
  ([[5; 6; 0]; [28996; 7; 0]; [28997; 8; 102]; [0; 0; 0]],
   [[5; 103; 0]; [28996; 7; 0]; [28997; 103; 102]; [0; 0; 0]],
   [[0; 0; 0]; [0; 1; 0]; [0; 3; 0]; [0; 0; 0]]).

End Demo.

(** ** Further specification-side definitions *)

(** The number of split sentinels in a sequence. *)
Definition count_sentinels (split_on : list Z) (thread : list Z) : nat :=
  length (List.filter (fun x => contains x split_on) thread).

(** The rows of index [k * bs] to [k * bs + bs - 1], each cut at
    [max_len]: the rows of the batch of index [k], before padding. *)
Definition chunk (max_len : Z) (bs k : nat) (rows : list (list Z))
  : list (list Z) :=
  map (fun row => slice_to row max_len) (take bs (drop (k * bs) rows)).

(** A thread batch one of whose arrays has no leading axis of size one. *)
Definition unsqueezable {X} (tb : thread_batch X) : Prop :=
  let '(tokenized_threads, masked_threads, comp_type_labels, _) := tb in
  length tokenized_threads <> 1%nat \/ length masked_threads <> 1%nat \/
  length comp_type_labels <> 1%nat.

(** ** The evaluation loop *)

(** [{v: k for k, v in ac_dict.items()}]: items met later overwrite.  The
    order of [map_to_list] stands for the insertion order of the dictionary,
    which only matters when two tags share an id. *)
Definition int_to_labels (ac_dict : gmap string Z) : gmap Z string :=
  fold_left (fun names kv => <[kv.2 := kv.1]> names) (map_to_list ac_dict) ∅.

(** [[int_to_labels[x] for x in ids]] *)
Fixpoint label_names (names : gmap Z string) (ids : list Z)
  : result (list string) :=
  match ids with
  | [] => Ok []
  | x :: rest =>
      match names !! x with
      | None => Raise KeyError
      | Some name =>
          others ← label_names names rest;
          Ok (name :: others)
      end
  end.

(** [torch.sum(torch.where(t != pad, 1, 0), axis=-1)] *)
Definition row_lengths (t : list (list Z)) (pad : Z) : list Z :=
  map (foldr Z.add 0) (where_ne t pad).

(** [[[int_to_labels[x] for x in row[:lengths[i]]]
      for i, row in enumerate(rows)]], from index [i] on. *)
Fixpoint named_rows (names : gmap Z string) (lengths : list Z) (i : nat)
    (rows : list (list Z)) : result (list (list string)) :=
  match rows with
  | [] => Ok []
  | row :: rest =>
      match lengths !! i with
      | None => Raise IndexError
      | Some n =>
          named ← label_names names (slice_to row n);
          others ← named_rows names lengths (S i) rest;
          Ok (named :: others)
      end
  end.

(** What [evaluate] does to the metric, in order. *)
Inductive metric_event : Type :=
| AddBatch (predictions references : list (list string))
           (tokenized_threads : list (list Z))
| MetricCompute.

(** Lines 239 to 261: the [add_batch] call of one batch. *)
Definition evaluate_batch (tok : tokenizer) (net : network) (head : crf_head)
    (names : gmap Z string) (batch : streams) : result metric_event :=
  let '(tokenized_threads, masked_threads, comp_type_labels) := batch in
  tokenized_threads ← torch_tensor tokenized_threads;
  masked_threads ← torch_tensor masked_threads;
  comp_type_labels ← torch_tensor comp_type_labels;
  c ← compute tok net head
        (tokenized_threads,
         where_eq masked_threads (mask_token_id tok),
         comp_type_labels) true true;
  match c with
  | Loss _ => Raise TypeError
  | Preds tagged =>
      let lengths := row_lengths tokenized_threads (pad_token_id tok) in
      preds ← named_rows names lengths 0 (map fst tagged);
      refs ← named_rows names lengths 0 comp_type_labels;
      Ok (AddBatch preds refs tokenized_threads)
  end.

Fixpoint evaluate_loop (tok : tokenizer) (net : network) (head : crf_head)
    (names : gmap Z string) (batches : generated streams)
  : list metric_event * option exn :=
  match batches with
  | Stop => ([], None)
  | Throw e => ([], Some e)
  | Yield batch rest =>
      match evaluate_batch tok net head names batch with
      | Raise e => ([], Some e)
      | Ok added =>
          let '(events, ended) := evaluate_loop tok net head names rest in
          (added :: events, ended)
      end
  end.

Definition evaluate {X} (tok : tokenizer) (cfg : data_config) (net : network)
    (head : crf_head) (dataset : list (thread_batch X))
  : list metric_event * option exn :=
  let names := int_to_labels (arg_components cfg) in
  let '(events, ended) :=
    evaluate_loop tok net head names
      (get_comment_wise_dataset tok cfg dataset 512 8) in
  match ended with
  | None => (events ++ [MetricCompute], None)
  | Some e => (events, Some e)
  end.

(** [[[int_to_labels[x] for x in row] for row in rows]]: the names of whole
    rows. *)
Fixpoint all_label_names (names : gmap Z string) (rows : list (list Z))
  : result (list (list string)) :=
  match rows with
  | [] => Ok []
  | row :: rest =>
      named ← label_names names row;
      others ← all_label_names names rest;
      Ok (named :: others)
  end.

(** The token threads of a data set, batch after batch, and a thread batch
    whose three arrays hold as many threads. *)
Definition all_threads {X} (dataset : list (thread_batch X))
  : list (list Z) :=
  concat (map (fun tb : thread_batch X => default [] (tb.1.1.1 !! 0%nat))
              dataset).

Definition same_thread_count {X} (tb : thread_batch X) : Prop :=
  let '(tokenized_threads, masked_threads, comp_type_labels, _) := tb in
  forall tts mts ctls,
    tokenized_threads = [tts] -> masked_threads = [mts] ->
    comp_type_labels = [ctls] ->
    length mts = length tts /\ length ctls = length tts.

(** * Theorems *)

(** ** Thread splitter *)

Section Splitter.

Context (split_on : list Z) (eos : Z).

Lemma append_to_last_snoc (init : list (list Z)) (cur : list Z) (elem : Z) :
  append_to_last (init ++ [cur]) elem = init ++ [cur ++ [elem]].
Proof.
  induction init as [|c init IH]; [done|].
  cbn [app append_to_last]. rewrite IH.
  by destruct (init ++ [cur]) eqn:E; [destruct init; discriminate|].
Qed.

(** One step of the loop on a state with its last component named. *)
Lemma split_loop_step init cur elem rest :
  split_loop split_on eos (init ++ [cur]) (elem :: rest) =
  let '(init', cur') :=
    if contains elem split_on then (init ++ [cur], [elem])
    else (init, cur ++ [elem]) in
  if elem =? eos then init' ++ [cur']
  else split_loop split_on eos (init' ++ [cur']) rest.
Proof.
  cbn [split_loop]. destruct (contains elem split_on).
  - by rewrite (append_to_last_snoc (init ++ [cur]) [] elem).
  - by rewrite append_to_last_snoc.
Qed.

Lemma split_loop_concat thread : forall init cur,
  concat (split_loop split_on eos (init ++ [cur]) thread) =
  concat (init ++ [cur]) ++ truncate_at eos thread.
Proof.
  induction thread as [|elem rest IH]; intros init cur.
  - cbn. by rewrite app_nil_r.
  - rewrite split_loop_step. cbn [truncate_at].
    destruct (contains elem split_on), (elem =? eos);
      rewrite ?IH, !concat_app; cbn; rewrite ?app_nil_r, <-?app_assoc; done.
Qed.

Lemma split_encoding_concat thread :
  concat (split_encoding thread split_on eos) = truncate_at eos thread.
Proof. apply (split_loop_concat thread [] []). Qed.

Lemma split_loop_truncate thread : forall splitted,
  split_loop split_on eos splitted (truncate_at eos thread) =
  split_loop split_on eos splitted thread.
Proof.
  induction thread as [|elem rest IH]; intros splitted; [done|].
  cbn [truncate_at split_loop].
  destruct (elem =? eos) eqn:E; cbn [split_loop]; rewrite E; [done|].
  apply IH.
Qed.

Lemma well_split_snoc init cur :
  well_split split_on (init ++ [cur]) ->
  forall elem,
    well_split split_on
      (if contains elem split_on then (init ++ [cur]) ++ [[elem]]
       else init ++ [cur ++ [elem]]).
Proof.
  intros Hw elem. destruct (contains elem split_on) eqn:E.
  - destruct (init ++ [cur]) as [|first others] eqn:Ei; [done|].
    destruct Hw as [Hf Ho]. split; [done|].
    apply Forall_app. split; [done|].
    apply Forall_singleton. exists elem, [].
    split; [done|]. split; [done|]. constructor.
  - destruct init as [|first others]; cbn in *.
    + destruct Hw as [Hf _]. split; [|done].
      apply Forall_app. split; [done|]. by apply Forall_singleton.
    + destruct Hw as [Hf Ho]. split; [done|].
      rewrite Forall_app in Ho. destruct Ho as [Ho Hc]. apply Forall_app. split; [done|].
      apply Forall_singleton. rewrite Forall_singleton in Hc.
      destruct Hc as (s & body & -> & Hs & Hb).
      exists s, (body ++ [elem]). repeat split; [done|].
      apply Forall_app. split; [done|]. by apply Forall_singleton.
Qed.

Lemma split_loop_well_split thread : forall init cur,
  well_split split_on (init ++ [cur]) ->
  well_split split_on (split_loop split_on eos (init ++ [cur]) thread).
Proof.
  induction thread as [|elem rest IH]; intros init cur Hw; [done|].
  rewrite split_loop_step.
  pose proof (well_split_snoc init cur Hw elem) as Hstep.
  destruct (contains elem split_on).
  - destruct (elem =? eos); [done|]. by apply IH.
  - destruct (elem =? eos); [done|]. by apply IH.
Qed.

Lemma split_encoding_well_split thread :
  well_split split_on (split_encoding thread split_on eos).
Proof.
  apply (split_loop_well_split thread [] []). split; [|done]. constructor.
Qed.

End Splitter.

Lemma truncate_at_absent (eos : Z) (thread : list Z) :
  eos ∉ thread -> truncate_at eos thread = thread.
Proof.
  induction thread as [|elem rest IH]; intros Hn; [done|].
  cbn. apply not_elem_of_cons in Hn as [Hne Hn].
  destruct (Z.eqb_spec elem eos); [congruence|]. by rewrite IH.
Qed.

Lemma truncate_at_first (eos : Z) (before after : list Z) :
  eos ∉ before ->
  truncate_at eos (before ++ eos :: after) = before ++ [eos].
Proof.
  induction before as [|elem rest IH]; intros Hn; cbn.
  - by rewrite Z.eqb_refl.
  - apply not_elem_of_cons in Hn as [Hne Hn].
    destruct (Z.eqb_spec elem eos); [congruence|]. by rewrite IH.
Qed.

(** C2: for every token sequence, split set and terminator, the
    concatenation of the sub-sequences that [split_encoding] returns is the
    input cut after the first terminator, the terminator kept, and the
    whole input when no terminator occurs. *)
Theorem split_encoding_concat_truncates
    (tokenized_thread split_on : list Z) (eos_token_id : Z) :
  concat (split_encoding tokenized_thread split_on eos_token_id) =
    truncate_at eos_token_id tokenized_thread /\
  (eos_token_id ∉ tokenized_thread ->
   concat (split_encoding tokenized_thread split_on eos_token_id) =
     tokenized_thread) /\
  (forall before after,
     tokenized_thread = before ++ eos_token_id :: after ->
     eos_token_id ∉ before ->
     concat (split_encoding tokenized_thread split_on eos_token_id) =
       before ++ [eos_token_id]).
Proof.
  rewrite split_encoding_concat. split; [done|]. split.
  - apply truncate_at_absent.
  - intros before after -> Hn. by apply truncate_at_first.
Qed.

Lemma split_encoding_concat_truncates_witness :
  concat (split_encoding [10; 7; 11; 12; 13] [7] 9) = [10; 7; 11; 12; 13] /\
  concat (split_encoding [10; 7; 11; 9; 13; 7; 9] [7] 9) = [10; 7; 11] ++ [9].
Proof.
  split.
  - apply (split_encoding_concat_truncates [10; 7; 11; 12; 13] [7] 9).
    intros Hin. repeat (apply elem_of_cons in Hin as [Hin|Hin]; [lia|]).
    by apply elem_of_nil in Hin.
  - apply (split_encoding_concat_truncates [10; 7; 11; 9; 13; 7; 9] [7] 9)
      with (after := [13; 7; 9]); [reflexivity|].
    intros Hin. repeat (apply elem_of_cons in Hin as [Hin|Hin]; [lia|]).
    by apply elem_of_nil in Hin.
Defined.

(** C7: [split_encoding] opens a new sub-sequence right before each split
    sentinel, the sentinel being its first element, and stops right after
    the first terminator, which it keeps; on [A, SENT, B, C, EOS, D] with
    split set [SENT] and terminator [EOS] it returns
    [[A], [SENT, B, C, EOS]]. *)
Theorem split_encoding_sentinels_and_terminator :
  (forall (tokenized_thread split_on : list Z) (eos_token_id : Z),
     well_split split_on
       (split_encoding tokenized_thread split_on eos_token_id) /\
     concat (split_encoding tokenized_thread split_on eos_token_id) =
       truncate_at eos_token_id tokenized_thread /\
     split_encoding tokenized_thread split_on eos_token_id =
       split_encoding (truncate_at eos_token_id tokenized_thread)
                      split_on eos_token_id) /\
  (forall A SENT B C EOS D : Z,
     A <> SENT -> B <> SENT -> C <> SENT -> EOS <> SENT ->
     A <> EOS -> B <> EOS -> C <> EOS ->
     split_encoding [A; SENT; B; C; EOS; D] [SENT] EOS =
       [[A]; [SENT; B; C; EOS]]).
Proof.
  split.
  - intros thread split_on eos. split; [apply split_encoding_well_split|].
    split; [apply split_encoding_concat|].
    symmetry. apply split_loop_truncate.
  - intros A SENT B C EOS D HA HB HC HE HA' HB' HC'.
    apply Z.eqb_neq in HA, HB, HC, HE, HA', HB', HC'.
    assert ((SENT =? EOS) = false) as HE' by (rewrite Z.eqb_sym; exact HE).
    unfold split_encoding.
    cbn -[Z.eqb].
    rewrite ?HA, ?HA', ?Z.eqb_refl. cbn -[Z.eqb].
    rewrite ?HE', ?HB, ?HB', ?Z.eqb_refl. cbn -[Z.eqb].
    rewrite ?HC, ?HC', ?HE, ?Z.eqb_refl. cbn -[Z.eqb].
    rewrite ?HC, ?HC', ?HE, ?Z.eqb_refl. cbn -[Z.eqb].
    rewrite ?HC, ?HC', ?HE, ?Z.eqb_refl. reflexivity.
Qed.

Lemma split_encoding_sentinels_and_terminator_witness :
  split_encoding [10; 7; 11; 12; 9; 13] [7] 9 = [[10]; [7; 11; 12; 9]].
Proof.
  apply (proj2 split_encoding_sentinels_and_terminator 10 7 11 12 9 13); lia.
Defined.

Example split_scenario_leading_sentinel :
  split_encoding [7; 10; 7; 9; 7] [7] 9 = [[]; [7; 10]; [7; 9]].
Proof. reflexivity. Qed.

(** ** Batch padder *)

(** C6: [pad_batch] on an empty collection of sequences fails: the
    maximum of no lengths raises, and no padded result is returned. *)
Theorem pad_batch_empty_raises (pad_token_id : Z) :
  pad_batch [] pad_token_id = Raise ValueError /\
  raises (pad_batch [] pad_token_id).
Proof. split; [reflexivity | exact I]. Qed.

Example pad_scenario :
  pad_batch [[1; 2]; [1; 2; 3]; [1]] 0 = Ok [[1; 2; 0]; [1; 2; 3]; [1; 0; 0]].
Proof. reflexivity. Qed.

Lemma fold_left_max_ge (xs : list nat) : forall x,
  (x <= fold_left Nat.max xs x)%nat /\
  Forall (fun y => (y <= fold_left Nat.max xs x)%nat) xs.
Proof.
  induction xs as [|y xs IH]; intros x; cbn; [by split|].
  destruct (IH (Nat.max x y)) as [H1 H2]. split; [lia|].
  constructor; [lia|done].
Qed.

Lemma max_ge (xs : list nat) (n : nat) :
  max_ xs = Ok n -> Forall (fun y => (y <= n)%nat) xs.
Proof.
  destruct xs as [|x xs]; [done|]. intros [= <-].
  destruct (fold_left_max_ge xs x). by constructor.
Qed.

(** Every padded row has the length of the longest input row. *)
Lemma pad_batch_rows (elems padded : list (list Z)) (pad : Z) :
  pad_batch elems pad = Ok padded ->
  exists n, max_ (map length elems) = Ok n /\
            length padded = length elems /\
            Forall (fun row => length row = n) padded.
Proof.
  unfold pad_batch. destruct (max_ (map length elems)) as [n|e] eqn:E; [|done].
  cbn. intros [= <-]. exists n. split; [done|]. split; [by rewrite length_map|].
  apply max_ge in E. rewrite Forall_map in E |- *.
  eapply Forall_impl; [exact E|]. cbn. intros row Hle.
  rewrite length_app, length_replicate. lia.
Qed.

Lemma pad_batch_nonempty (elems : list (list Z)) (pad : Z) :
  elems <> [] -> exists padded, pad_batch elems pad = Ok padded.
Proof. destruct elems; [done|]. intros _. by eexists. Qed.

(** ** Comment-wise data set generator *)

Section Generator.

Context (tok : tokenizer) (cfg : data_config).

Lemma slice_to_length {A} (xs ys : list A) (n : Z) :
  length xs = length ys -> length (slice_to xs n) = length (slice_to ys n).
Proof.
  intros Hlen. unfold slice_to.
  destruct (0 <=? n); rewrite !length_take, Hlen; done.
Qed.

Lemma aligned_snoc toks masks labels (t m l : list Z) :
  aligned (toks, masks, labels) ->
  length t = length m -> length t = length l ->
  aligned (toks ++ [t], masks ++ [m], labels ++ [l]).
Proof.
  intros [Hm Hl] Htm Htl. split; rewrite !map_app; cbn; congruence.
Qed.

Lemma append_comments_aligned splitted : forall masked_thread label cw,
  aligned cw ->
  (length (concat splitted) <= length masked_thread)%nat ->
  (length (concat splitted) <= length label)%nat ->
  aligned (append_comments splitted masked_thread label cw).
Proof.
  induction splitted as [|elem rest IH]; intros m l [[toks masks] labels];
    [done|].
  cbn [concat append_comments]. rewrite length_app. intros Hcw Hm Hl.
  apply IH.
  - apply aligned_snoc; [done| |]; rewrite length_take; lia.
  - rewrite length_drop. lia.
  - rewrite length_drop. lia.
Qed.

Lemma truncate_at_length (eos : Z) (thread : list Z) :
  (length (truncate_at eos thread) <= length thread)%nat.
Proof.
  induction thread as [|elem rest IH]; [done|].
  cbn. destruct (elem =? eos); cbn; lia.
Qed.

Lemma append_threads_aligned split_on eos tts : forall mts ctls cw,
  aligned cw ->
  (forall j t m l,
     tts !! j = Some t -> mts !! j = Some m -> ctls !! j = Some l ->
     (length t <= length m)%nat /\ (length t <= length l)%nat) ->
  aligned (append_threads split_on eos tts mts ctls cw).
Proof.
  induction tts as [|t tts IH]; intros [|m mts] [|l ctls] cw Hcw Hcov;
    try done.
  cbn [append_threads]. apply IH.
  - destruct (Hcov 0%nat t m l) as [Hm Hl]; [done..|].
    pose proof (truncate_at_length eos t) as Htr.
    apply append_comments_aligned; [done| |];
      rewrite split_encoding_concat; lia.
  - intros j. apply (Hcov (S j)).
Qed.

Lemma squeeze0_inv {A} (a : list A) (x : A) : squeeze0 a = Ok x -> a = [x].
Proof. destruct a as [|y [|??]]; cbn; congruence. Qed.

Lemma collect_comments_aligned {X} split_on eos
    (dataset : list (thread_batch X)) : forall cw cw',
  Forall covers_tokens dataset ->
  aligned cw ->
  collect_comments split_on eos dataset cw = Ok cw' ->
  aligned cw'.
Proof.
  induction dataset as [|[[[T M] L] x] rest IH]; intros cw cw' Hds Hcw.
  - cbn. by intros [= <-].
  - cbn [collect_comments].
    destruct (squeeze0 T) as [tts|] eqn:ET; [|done].
    destruct (squeeze0 M) as [mts|] eqn:EM; [|done].
    destruct (squeeze0 L) as [ctls|] eqn:EL; [|done].
    cbn. apply Forall_cons in Hds as [Hcov Hds].
    apply squeeze0_inv in ET as ->, EM as ->, EL as ->.
    apply IH; [done|]. apply append_threads_aligned; [done|].
    intros j. apply (Hcov j).
Qed.

(** A batch padded from aligned streams: one shape for the three. *)
Lemma pad_streams_same_length cw batch :
  aligned cw -> pad_streams tok cfg cw = Ok batch ->
  rows batch = rows cw /\ triples_same_length batch.
Proof.
  destruct cw as [[toks masks] labels]. intros [Hm Hl]. unfold pad_streams.
  destruct (pad_batch toks _) as [ptoks|] eqn:Et; [|done].
  destruct (pad_batch masks _) as [pmasks|] eqn:Em; [|done].
  destruct (pad_batch labels _) as [plabels|] eqn:El; [|done].
  cbn. intros [= <-].
  apply pad_batch_rows in Et as (n & Hn & Hlt & Ht).
  apply pad_batch_rows in Em as (n1 & Hn1 & Hlm & Hpm).
  apply pad_batch_rows in El as (n2 & Hn2 & Hll & Hpl).
  rewrite <-Hm in Hn1. rewrite <-Hl in Hn2.
  assert (n1 = n) as -> by congruence. assert (n2 = n) as -> by congruence.
  apply (f_equal length) in Hm, Hl. rewrite !length_map in Hm, Hl.
  split; [done|]. split; [lia|]. split; [lia|].
  intros i t m l Hi Hj Hk.
  rewrite Forall_lookup in Ht, Hpm, Hpl.
  rewrite (Ht i t Hi), (Hpm i m Hj), (Hpl i l Hk). done.
Qed.

Lemma batch_loop_same_length max_len batch_size toks :
  forall masks labels i cw,
    map length toks = map length masks ->
    map length toks = map length labels ->
    aligned cw ->
    Forall triples_same_length
      (yielded (batch_loop tok cfg max_len batch_size i toks masks labels cw)).
Proof.
  induction toks as [|t toks IH];
    intros [|m masks] [|l labels] i [[cwt cwm] cwl] Hm Hl Hcw;
    try done; try constructor.
  injection Hm as Htm Hm. injection Hl as Htl Hl.
  cbn [batch_loop].
  pose proof (aligned_snoc cwt cwm cwl _ _ _ Hcw
                (slice_to_length t m max_len Htm)
                (slice_to_length t l max_len Htl)) as Hcw'.
  destruct (mod_ (i + 1) batch_size) as [r|]; [|constructor].
  destruct (r =? 0); [|by apply IH].
  destruct (pad_streams _ _ _) as [batch|] eqn:Ep; [|constructor].
  cbn. constructor.
  - by apply (pad_streams_same_length _ _ Hcw').
  - by apply IH.
Qed.

End Generator.

(** C1: every batch the comment-wise generator emits has its token, mask
    and label rows of one length, row by row: the three streams have as
    many rows, and the i-th rows of the three are equally long.  The thread
    batches are those of the data model, where mask and labels cover the
    tokens of their thread. *)
Theorem comment_wise_triples_same_length {X} (tok : tokenizer)
    (cfg : data_config) (dataset : list (thread_batch X))
    (max_len batch_size : Z) :
  Forall covers_tokens dataset ->
  forall toks masks labels,
    (toks, masks, labels) ∈
      yielded (get_comment_wise_dataset tok cfg dataset max_len batch_size) ->
    length toks = length masks /\ length toks = length labels /\
    forall i t m l,
      toks !! i = Some t -> masks !! i = Some m -> labels !! i = Some l ->
      length t = length m /\ length m = length l.
Proof.
  intros Hds toks masks labels Hin.
  assert (Forall triples_same_length
            (yielded (get_comment_wise_dataset tok cfg dataset
                        max_len batch_size))) as Hall.
  { unfold get_comment_wise_dataset.
    destruct (collect_comments _ _ _ _) as [[[ts ms] ls]|] eqn:Ec;
      [|constructor].
    apply collect_comments_aligned in Ec as [Hm Hl]; [|done|done].
    by apply batch_loop_same_length. }
  rewrite Forall_forall in Hall. apply (Hall _ Hin).
Qed.

Section GeneratorCounts.

Context (tok : tokenizer) (cfg : data_config).

Lemma rows_append_comments splitted : forall m l toks masks labels,
  length toks = length masks -> length toks = length labels ->
  exists masks' labels',
    append_comments splitted m l (toks, masks, labels) =
      (toks ++ splitted, masks', labels') /\
    length (toks ++ splitted) = length masks' /\
    length (toks ++ splitted) = length labels'.
Proof.
  induction splitted as [|elem rest IH]; intros m l toks masks labels Hm Hl.
  - exists masks, labels. by rewrite app_nil_r.
  - cbn [append_comments].
    edestruct (IH (drop (length elem) m) (drop (length elem) l)
                  (toks ++ [elem])) as (m' & l' & -> & H1 & H2).
    + rewrite !length_app. cbn. lia.
    + rewrite !length_app. cbn. lia.
    + rewrite <-app_assoc in *. cbn in *. by exists m', l'.
Qed.

Lemma rows_append_threads split_on eos tts : forall mts ctls toks masks labels,
  length toks = length masks -> length toks = length labels ->
  exists toks' masks' labels',
    append_threads split_on eos tts mts ctls (toks, masks, labels) =
      (toks', masks', labels') /\
    length toks' = length masks' /\ length toks' = length labels'.
Proof.
  induction tts as [|t tts IH]; intros [|m mts] [|l ctls] toks masks labels
    Hm Hl; try (by exists toks, masks, labels).
  cbn [append_threads].
  destruct (rows_append_comments (split_encoding t split_on eos) m l
              toks masks labels Hm Hl) as (m' & l' & -> & H1 & H2).
  by apply IH.
Qed.

Lemma rows_collect_comments {X} split_on eos
    (dataset : list (thread_batch X)) : forall toks masks labels cw,
  length toks = length masks -> length toks = length labels ->
  collect_comments split_on eos dataset (toks, masks, labels) = Ok cw ->
  length cw.1.1 = length cw.1.2 /\ length cw.1.1 = length cw.2.
Proof.
  induction dataset as [|[[[T M] L] x] rest IH];
    intros toks masks labels cw Hm Hl.
  - cbn. by intros [= <-].
  - cbn [collect_comments].
    destruct (squeeze0 T) as [tts|]; [|done].
    destruct (squeeze0 M) as [mts|]; [|done].
    destruct (squeeze0 L) as [ctls|]; [|done]. cbn.
    destruct (rows_append_threads split_on eos tts mts ctls
                toks masks labels Hm Hl) as (t' & m' & l' & -> & H1 & H2).
    by apply IH.
Qed.

Lemma pad_streams_snoc toks masks labels (t m l : list Z) :
  exists batch,
    pad_streams tok cfg (toks ++ [t], masks ++ [m], labels ++ [l]) =
      Ok batch /\
    length batch.1.1 = S (length toks) /\
    length batch.1.2 = S (length masks) /\
    length batch.2 = S (length labels).
Proof.
  unfold pad_streams.
  destruct (pad_batch_nonempty (toks ++ [t]) (pad_token_id tok))
    as [pt Et]; [by destruct toks|].
  destruct (pad_batch_nonempty (masks ++ [m]) (pad_token_id tok))
    as [pm Em]; [by destruct masks|].
  destruct (pad_batch_nonempty (labels ++ [l]) (pad_for_comp_type_labels cfg))
    as [pl El]; [by destruct labels|].
  rewrite Et, Em, El. cbn. eexists. split; [done|]. cbn.
  apply pad_batch_rows in Et as (? & _ & -> & _).
  apply pad_batch_rows in Em as (? & _ & -> & _).
  apply pad_batch_rows in El as (? & _ & -> & _).
  rewrite !length_app. cbn. lia.
Qed.

Lemma succ_mod (i bs : Z) :
  0 < bs ->
  ((i + 1) mod bs = 0 /\ i mod bs + 1 = bs) \/
  ((i + 1) mod bs <> 0 /\ (i + 1) mod bs = i mod bs + 1).
Proof.
  intros Hbs.
  pose proof (Z.mod_pos_bound i bs Hbs) as Hr.
  pose proof (Z.div_mod i bs ltac:(lia)) as Hi.
  destruct (Z.eq_dec (i mod bs + 1) bs) as [E|E].
  - left. split; [|done].
    symmetry. apply (Z.mod_unique_pos _ _ (i / bs + 1)); lia.
  - right.
    assert ((i + 1) mod bs = i mod bs + 1) as ->; [|lia].
    symmetry. apply (Z.mod_unique_pos _ _ (i / bs)); lia.
Qed.

Lemma batch_loop_counts max_len bs (Hbs : 0 < bs) toks :
  forall masks labels i cw,
    length masks = length toks -> length labels = length toks ->
    length cw.1.1 = length cw.1.2 -> length cw.1.1 = length cw.2 ->
    Z.of_nat (rows cw) = i mod bs ->
    let g := batch_loop tok cfg max_len bs i toks masks labels cw in
    thrown g = None /\
    Forall (fun b => Z.of_nat (length b.1.1) = bs /\
                     Z.of_nat (length b.1.2) = bs /\
                     Z.of_nat (length b.2) = bs) (yielded g) /\
    Z.of_nat (length (yielded g)) =
      (i mod bs + Z.of_nat (length toks)) / bs.
Proof.
  induction toks as [|t toks IH];
    intros [|m masks] [|l labels] i [[cwt cwm] cwl] Hm Hl Hcm Hcl Hi;
    try done.
  - cbn. split; [done|]. split; [constructor|].
    pose proof (Z.mod_pos_bound i bs Hbs).
    rewrite Z.add_0_r, Z.div_small; lia.
  - cbn [batch_loop]. unfold mod_.
    destruct (Z.eqb_spec bs 0) as [|_]; [lia|].
    unfold rows in Hi. cbn in Hcm, Hcl, Hi, Hm, Hl.
    destruct (succ_mod i bs Hbs) as [[E0 Efull]|[Ene Esucc]].
    + rewrite E0. cbn [Z.eqb].
      destruct (pad_streams_snoc cwt cwm cwl
                  (slice_to t max_len) (slice_to m max_len)
                  (slice_to l max_len)) as (batch & -> & Ht & Hpm & Hpl).
      destruct (IH masks labels (i + 1) no_rows) as (Hth & Hall & Hcnt);
        [lia|lia|done|done|by rewrite E0|].
      cbn [thrown yielded length]. split; [done|]. split.
      * constructor; [|done]. lia.
      * rewrite Nat2Z.inj_succ, Hcnt, E0, Z.add_0_l. cbn [length].
        replace (i mod bs + Z.of_nat (S (length toks)))
          with (Z.of_nat (length toks) + 1 * bs) by lia.
        rewrite Z.div_add by lia. lia.
    + destruct (Z.eqb_spec ((i + 1) mod bs) 0) as [|_]; [lia|].
      destruct (IH masks labels (i + 1)
                  (cwt ++ [slice_to t max_len], cwm ++ [slice_to m max_len],
                   cwl ++ [slice_to l max_len]))
        as (Hth & Hall & Hcnt);
        [cbn; rewrite ?length_app; cbn; unfold rows; cbn;
         rewrite ?length_app; cbn; lia..|].
      split; [done|]. split; [done|].
      rewrite Hcnt, Esucc. apply (f_equal (fun x => x / bs)).
      cbn [length]. lia.
Qed.

End GeneratorCounts.

Example demo_user_token_indices :
  user_tokens_text Demo.cfg = "[UNU][USER0][USER1]" /\
  user_token_indices Demo.tok Demo.cfg = [28996; 28997].
Proof. split; reflexivity. Qed.

Example demo_generator :
  get_comment_wise_dataset Demo.tok Demo.cfg Demo.dataset 512 4 =
    Yield Demo.batch Stop.
Proof. reflexivity. Qed.

Lemma demo_covers_tokens : Forall covers_tokens Demo.dataset.
Proof.
  apply Forall_cons. split; [|exact (List.Forall_nil _)].
  intros [|[|j]] t m l; cbn; intros [= <-] [= <-] [= <-]; cbn; lia.
Defined.

Lemma comment_wise_triples_same_length_witness :
  length Demo.batch.1.1 = length Demo.batch.1.2 /\
  length Demo.batch.1.1 = length Demo.batch.2 /\
  forall i t m l,
    Demo.batch.1.1 !! i = Some t -> Demo.batch.1.2 !! i = Some m ->
    Demo.batch.2 !! i = Some l ->
    length t = length m /\ length m = length l.
Proof.
  apply (comment_wise_triples_same_length Demo.tok Demo.cfg Demo.dataset 512 4).
  - exact demo_covers_tokens.
  - apply list_elem_of_here.
Defined.

Lemma batch_loop_keep tok cfg max_len bs i t toks m masks l labels ct cm cl :
  (i + 1) mod bs <> 0 -> bs <> 0 ->
  batch_loop tok cfg max_len bs i (t :: toks) (m :: masks) (l :: labels)
             (ct, cm, cl) =
  batch_loop tok cfg max_len bs (i + 1) toks masks labels
             (ct ++ [slice_to t max_len], cm ++ [slice_to m max_len],
              cl ++ [slice_to l max_len]).
Proof.
  intros Hr Hbs. cbn [batch_loop]. unfold mod_.
  destruct (Z.eqb_spec bs 0); [done|].
  by destruct (Z.eqb_spec ((i + 1) mod bs) 0).
Qed.

Lemma batch_loop_emit tok cfg max_len bs i t toks m masks l labels ct cm cl
    batch :
  (i + 1) mod bs = 0 -> bs <> 0 ->
  pad_streams tok cfg (ct ++ [slice_to t max_len], cm ++ [slice_to m max_len],
                       cl ++ [slice_to l max_len]) = Ok batch ->
  batch_loop tok cfg max_len bs i (t :: toks) (m :: masks) (l :: labels)
             (ct, cm, cl) =
  Yield batch (batch_loop tok cfg max_len bs (i + 1) toks masks labels no_rows).
Proof.
  intros Hr Hbs Hp. cbn [batch_loop]. unfold mod_.
  destruct (Z.eqb_spec bs 0); [done|].
  rewrite Hr. cbn [Z.eqb]. by rewrite Hp.
Qed.

Lemma pad_streams_inv tok cfg toks masks labels ptoks pmasks plabels :
  pad_streams tok cfg (toks, masks, labels) = Ok (ptoks, pmasks, plabels) ->
  pad_batch toks (pad_token_id tok) = Ok ptoks /\
  pad_batch masks (pad_token_id tok) = Ok pmasks /\
  pad_batch labels (pad_for_comp_type_labels cfg) = Ok plabels.
Proof.
  unfold pad_streams.
  destruct (pad_batch toks _) as [pt|]; [|done].
  destruct (pad_batch masks _) as [pm|]; [|done].
  destruct (pad_batch labels _) as [pl|]; [|done].
  cbn. by intros [= -> -> ->].
Qed.

Lemma generated_single {B} (g : generated B) :
  thrown g = None -> length (yielded g) = 1%nat ->
  exists b, g = Yield b Stop.
Proof.
  destruct g as [|b [|b' rest|e]|e]; cbn; try done.
  intros _ _. by exists b.
Qed.

(** C3: with a positive batch size the comment-wise generator emits only
    batches of exactly [batch_size] triples, as many as [batch_size] goes
    into the number of comments, and then ends without an error: a
    remainder smaller than [batch_size] is dropped.  For one thread batch
    of two threads that split into three comments each and a batch size of
    four, one batch is emitted, made of the first four comments. *)
Theorem comment_wise_batches_full_remainder_dropped {X} (tok : tokenizer)
    (cfg : data_config) :
  (forall (dataset : list (thread_batch X)) (max_len batch_size : Z),
     0 < batch_size ->
     let g := get_comment_wise_dataset tok cfg dataset max_len batch_size in
     (forall toks masks labels,
        (toks, masks, labels) ∈ yielded g ->
        Z.of_nat (length toks) = batch_size /\
        Z.of_nat (length masks) = batch_size /\
        Z.of_nat (length labels) = batch_size) /\
     (forall comments,
        collect_comments (user_token_indices tok cfg) (eos_token_id tok)
                         dataset no_rows = Ok comments ->
        thrown g = None /\
        Z.of_nat (length (yielded g)) =
          Z.of_nat (rows comments) / batch_size)) /\
  (forall (t1 t2 m1 m2 l1 l2 : list Z) (x : X) (max_len : Z),
     let split t :=
       split_encoding t (user_token_indices tok cfg) (eos_token_id tok) in
     length (split t1) = 3%nat -> length (split t2) = 3%nat ->
     exists toks masks labels,
       get_comment_wise_dataset tok cfg
         [([[t1; t2]], [[m1; m2]], [[l1; l2]], x)] max_len 4 =
         Yield (toks, masks, labels) Stop /\
       length toks = 4%nat /\ length masks = 4%nat /\ length labels = 4%nat /\
       pad_batch (map (fun c => slice_to c max_len)
                      (take 4 (split t1 ++ split t2)))
                 (pad_token_id tok) = Ok toks).
Proof.
  split.
  - intros dataset max_len bs Hbs g. subst g.
    unfold get_comment_wise_dataset.
    destruct (collect_comments _ _ _ _) as [[[ts ms] ls]|e] eqn:Ec.
    + apply rows_collect_comments in Ec as [Hm Hl]; [|done..]. cbn in Hm, Hl.
      destruct (batch_loop_counts tok cfg max_len bs Hbs ts ms ls 0 no_rows)
        as (Hth & Hall & Hcnt); [lia|lia|done|done|by rewrite Z.mod_0_l by lia|].
      split.
      * intros toks masks labels Hin.
        rewrite Forall_forall in Hall. apply (Hall _ Hin).
      * intros comments [= <-]. split; [done|].
        rewrite Hcnt, Z.mod_0_l by lia. done.
    + split; [|done]. intros toks masks labels Hin. cbn in Hin.
      by apply elem_of_nil in Hin.
  - intros t1 t2 m1 m2 l1 l2 x max_len split E1 E2. subst split.
    cbn beta in E1, E2 |- *.
    unfold get_comment_wise_dataset. cbn [collect_comments squeeze0].
    cbn [mbind result_bind append_threads]. cbn beta iota.
    destruct (split_encoding t1 _ _) as [|k1 [|k2 [|k3 [|]]]]; try done.
    destruct (split_encoding t2 _ _) as [|k4 [|k5 [|k6 [|]]]]; try done.
    unfold no_rows. cbn [append_comments app].
    do 3 (rewrite batch_loop_keep by (vm_compute; congruence)). cbn [app].
    destruct (pad_streams_snoc tok cfg
                [slice_to k1 max_len; slice_to k2 max_len; slice_to k3 max_len]
                [slice_to (take (length k1) m1) max_len;
                 slice_to (take (length k2) (drop (length k1) m1)) max_len;
                 slice_to (take (length k3)
                             (drop (length k2) (drop (length k1) m1))) max_len]
                [slice_to (take (length k1) l1) max_len;
                 slice_to (take (length k2) (drop (length k1) l1)) max_len;
                 slice_to (take (length k3)
                             (drop (length k2) (drop (length k1) l1))) max_len]
                (slice_to k4 max_len)
                (slice_to (take (length k4) m2) max_len)
                (slice_to (take (length k4) l2) max_len))
      as ([[toks masks] labels] & Ep & Ht & Hm & Hl).
    cbn [app] in Ep.
    rewrite (batch_loop_emit _ _ _ _ _ _ _ _ _ _ _ _ _ _ (toks, masks, labels))
      by (exact Ep || (vm_compute; congruence)).
    unfold no_rows.
    do 2 (rewrite batch_loop_keep by (vm_compute; congruence)).
    cbn [batch_loop].
    exists toks, masks, labels.
    cbn in Ht, Hm, Hl.
    split; [reflexivity|]. split; [exact Ht|]. split; [exact Hm|].
    split; [exact Hl|].
    by apply pad_streams_inv in Ep as (Et & _ & _).
Qed.

Lemma comment_wise_batches_full_remainder_dropped_witness :
  let g := get_comment_wise_dataset Demo.tok Demo.cfg Demo.dataset 512 4 in
  (Z.of_nat (length Demo.batch.1.1) = 4 /\
   Z.of_nat (length Demo.batch.1.2) = 4 /\
   Z.of_nat (length Demo.batch.2) = 4) /\
  (thrown g = None /\ Z.of_nat (length (yielded g)) = 6 / 4) /\
  exists toks masks labels,
    g = Yield (toks, masks, labels) Stop /\
    length toks = 4%nat /\ length masks = 4%nat /\ length labels = 4%nat /\
    pad_batch [[5; 6]; [28996; 7]; [28997; 8; 102]; []] 0 = Ok toks.
Proof.
  destruct (comment_wise_batches_full_remainder_dropped (X := unit)
              Demo.tok Demo.cfg) as [Hgen Hscen].
  destruct (Hgen Demo.dataset 512 4 ltac:(lia)) as [Hfull Hcount].
  split; [|split].
  - apply Hfull. apply list_elem_of_here.
  - apply (Hcount
             ([[5; 6]; [28996; 7]; [28997; 8; 102];
               []; [28996; 9]; [28997; 10; 11; 102]],
              [[5; 103]; [28996; 7]; [28997; 103; 102];
               []; [28996; 103]; [28997; 10; 11; 102]],
              [[0; 0]; [0; 1]; [0; 3; 0]; []; [0; 1]; [0; 3; 4; 0]])).
    reflexivity.
  - apply (Hscen [5; 6; 28996; 7; 28997; 8; 102; 0]
                 [28996; 9; 28997; 10; 11; 102; 0; 0]
                 [5; 103; 28996; 7; 28997; 103; 102; 0]
                 [28996; 103; 28997; 10; 11; 102; 0; 0]
                 [0; 0; 0; 1; 0; 3; 0; 0]
                 [0; 1; 0; 3; 4; 0; 0; 0] tt 512); reflexivity.
Defined.

(** ** Label scheme and transition constraints *)

Example essays_config_all_classes :
  exists c,
    PersuasiveEssays.config = Ok c /\
    PersuasiveEssays.cfg_all_classes c = true /\
    PersuasiveEssays.cfg_batch_size c = 4096 /\
    PersuasiveEssays.cfg_pad_for_comp_type_labels c = 0 /\
    size (PersuasiveEssays.cfg_arg_components c) = 7%nat /\
    map (fun k => PersuasiveEssays.cfg_arg_components c !! k)
        ["O"; "B-C"; "I-C"; "B-P"; "I-P"; "B-MC"; "I-MC"] =
      map Some [0; 1; 2; 3; 4; 5; 6].
Proof.
  eexists. split; [reflexivity|]. do 3 (split; [reflexivity|]).
  split; vm_compute; reflexivity.
Qed.

Example essays_allowed_transitions :
  (c ← PersuasiveEssays.config;
   allowed_transitions (PersuasiveEssays.cfg_arg_components c)) =
  Ok [(1, 2); (3, 4);
      (2, 2); (2, 1); (2, 3); (2, 0);
      (4, 4); (4, 1); (4, 3); (4, 0);
      (0, 0); (0, 1); (0, 3)].
Proof. vm_compute. reflexivity. Qed.

(** C9: with ["all_classes"] true the label scheme has seven tags, B-MC
    with id 5 and I-MC with id 6 among them, and the CRF and the linear
    layer are built for seven tags; yet every pair of [allowed_transitions]
    is over the ids 0 to 4, none mentions 5 or 6. *)
Theorem allowed_transitions_omit_major_claim_tags :
  exists c allowed,
    PersuasiveEssays.make_config true = Ok c /\
    size (PersuasiveEssays.cfg_arg_components c) = 7%nat /\
    PersuasiveEssays.cfg_arg_components c !! "B-MC" = Some 5 /\
    PersuasiveEssays.cfg_arg_components c !! "I-MC" = Some 6 /\
    allowed_transitions (PersuasiveEssays.cfg_arg_components c) = Ok allowed /\
    Forall (fun p : Z * Z => (0 <= p.1 <= 4) /\ (0 <= p.2 <= 4)) allowed /\
    Forall (fun p : Z * Z => p.1 <> 5 /\ p.1 <> 6 /\ p.2 <> 5 /\ p.2 <> 6)
           allowed /\
    forall hidden_size,
      let head :=
        get_crf_head hidden_size (PersuasiveEssays.cfg_arg_components c)
                     allowed in
      out_features head = 7%nat /\ num_tags head = 7%nat /\
      constraints head = allowed.
Proof.
  eexists _, _. split; [reflexivity|].
  cbn [PersuasiveEssays.cfg_arg_components].
  split; [by vm_compute|]. split; [by vm_compute|]. split; [by vm_compute|].
  split; [vm_compute; reflexivity|].
  split; [repeat (apply List.Forall_cons || apply List.Forall_nil); cbn; lia|].
  split; [repeat (apply List.Forall_cons || apply List.Forall_nil); cbn; lia|].
  intros hidden_size. cbn. split; [by vm_compute|]. split; [by vm_compute|done].
Qed.

(** ** Loss and prediction *)

(** C5: the result of [compute], loss or decoded tags, does not depend on
    the second component of its batch: the pad mask is derived from the
    tokens and the second component is never read.  The loss that [train]
    computes for a batch is therefore the same whatever token id marks the
    masked positions. *)
Theorem compute_ignores_second_component (tok : tokenizer) (net : network)
    (head : crf_head) :
  (forall (tokenized_threads labels ids1 ids2 : list (list Z))
          (preds cross_entropy : bool),
     compute tok net head (tokenized_threads, ids1, labels)
             preds cross_entropy =
     compute tok net head (tokenized_threads, ids2, labels)
             preds cross_entropy) /\
  (forall (cfg : data_config) (batch : streams) (v : Z),
     batch_loss (with_mask_token_id tok v) cfg net head batch =
     batch_loss tok cfg net head batch).
Proof.
  split; [reflexivity|].
  intros cfg [[toks masks] labels] v. reflexivity.
Qed.

Lemma class_weights_length : length class_weights = 5%nat.
Proof. reflexivity. Qed.

Lemma cross_entropy_layer_wrong_width (num_classes : nat) input target :
  num_classes <> 5%nat ->
  raises (cross_entropy_layer num_classes input target).
Proof.
  intros Hn. unfold cross_entropy_layer.
  destruct (negb (length input =? length target)%nat); [exact I|].
  rewrite class_weights_length.
  destruct (Nat.eqb_spec 5 num_classes); [congruence|exact I].
Qed.

Lemma token_cross_entropy_no_weight (x : list R) (y : Z) :
  5 <= y -> raises (token_cross_entropy class_weights x y).
Proof.
  intros Hy. unfold token_cross_entropy.
  destruct (Z.eqb_spec y (-100)); [lia|].
  destruct (_ && _); [|exact I].
  assert (class_weights !! Z.to_nat y = None) as ->; [|exact I].
  apply lookup_ge_None. rewrite class_weights_length. lia.
Qed.

(** C10: the weight vector of the cross-entropy layer has five entries
    while, with ["all_classes"] true, the linear projection and the CRF are
    built for seven tags; so [compute] with the cross-entropy term returns
    no loss: the layer rejects logits of seven classes, and a label id of
    5 or 6 has no weight. *)
Theorem combined_loss_not_total_with_seven_tags :
  length class_weights = 5%nat /\
  (forall (x : list R),
     raises (token_cross_entropy class_weights x 5) /\
     raises (token_cross_entropy class_weights x 6)) /\
  exists c allowed,
    PersuasiveEssays.make_config true = Ok c /\
    allowed_transitions (PersuasiveEssays.cfg_arg_components c) = Ok allowed /\
    forall (tok : tokenizer) (net : network) (hidden_size : nat)
           (batch : list (list Z) * list (list Z) * list (list Z)),
      let head :=
        get_crf_head hidden_size (PersuasiveEssays.cfg_arg_components c)
                     allowed in
      out_features head = 7%nat /\ num_tags head = 7%nat /\
      raises (compute tok net head batch false true).
Proof.
  split; [reflexivity|]. split.
  { intros x. split; apply token_cross_entropy_no_weight; lia. }
  eexists _, _. split; [reflexivity|]. split; [vm_compute; reflexivity|].
  intros tok net hidden_size [[toks ids] labels] head.
  assert (out_features head = 7%nat) as Hout by (by vm_compute).
  split; [done|]. split; [by vm_compute|].
  unfold compute.
  destruct (transformer_model net _ _) as [h|]; [|exact I]. cbn.
  destruct (linear_layer net h) as [logits|]; [|exact I]. cbn.
  destruct (crf_layer net _ _ _) as [ll|]; [|exact I]. cbn.
  pose proof (cross_entropy_layer_wrong_width (out_features head)
                (concat logits) (concat labels)) as Hce.
  destruct (cross_entropy_layer _ _ _); [|exact I].
  exfalso. apply Hce. rewrite Hout. lia.
Qed.

Lemma sum_R_cons (a : R) (l : list R) : sum_R (a :: l) = (a + sum_R l)%R.
Proof. reflexivity. Qed.

Lemma sum_exp_pos (x : list R) : x <> [] -> (0 < sum_R (map exp x))%R.
Proof.
  assert (forall l, (0 <= sum_R (map exp l))%R) as Hnn.
  { induction l as [|a l IH]; [cbn; lra|].
    cbn [map]. rewrite sum_R_cons. pose proof (exp_pos a). lra. }
  destruct x as [|a x]; [done|]. intros _.
  cbn [map]. rewrite sum_R_cons.
  pose proof (exp_pos a). pose proof (Hnn x). lra.
Qed.

(** The log-softmax form the layer computes is the logarithm of the
    softmax probability. *)
Lemma token_cross_entropy_weighted (x : list R) (y : Z) :
  length x = 5%nat -> 0 <= y < 5 ->
  token_cross_entropy class_weights x y = Ok (weighted_cross_entropy x y).
Proof.
  intros Hx Hy. unfold token_cross_entropy.
  destruct (Z.eqb_spec y (-100)); [lia|].
  assert ((0 <=? y) && (y <? Z.of_nat (length x)) = true) as ->.
  { apply andb_true_iff. split; [apply Z.leb_le|apply Z.ltb_lt]; lia. }
  destruct (lookup_lt_is_Some_2 class_weights (Z.to_nat y)) as [w Hw].
  { rewrite class_weights_length. lia. }
  destruct (lookup_lt_is_Some_2 x (Z.to_nat y)) as [xy Hxy]; [lia|].
  rewrite Hw, Hxy. f_equal.
  unfold weighted_cross_entropy, softmax.
  erewrite (nth_lookup_Some class_weights), (nth_lookup_Some x) by eassumption.
  assert (0 < sum_R (map exp x))%R as Hs.
  { apply sum_exp_pos. by destruct x. }
  unfold Rdiv. rewrite ln_mult, ln_Rinv, ln_exp.
  - reflexivity.
  - exact Hs.
  - apply exp_pos.
  - by apply Rinv_0_lt_compat.
Qed.

Lemma token_losses_weighted (input : list (list R)) : forall target,
  Forall (fun x => length x = 5%nat) input ->
  Forall (fun y => 0 <= y < 5) target ->
  token_losses class_weights input target =
    Ok (zip_with weighted_cross_entropy input target).
Proof.
  induction input as [|x input IH]; intros [|y target] Hx Hy; try done.
  apply Forall_cons in Hx as [Hx Hxs]. apply Forall_cons in Hy as [Hy Hys].
  cbn [token_losses].
  rewrite (token_cross_entropy_weighted x y Hx Hy), (IH target Hxs Hys).
  reflexivity.
Qed.

Lemma concat_where_ne (t : list (list Z)) (v : Z) :
  concat (where_ne t v) = map (fun x => if x =? v then 0 else 1) (concat t).
Proof.
  induction t as [|row t IH]; [done|].
  cbn. by rewrite map_app, <-IH.
Qed.

(** Multiplying by the pad mask and summing is summing over the non-pad
    positions. *)
Lemma masked_sum_filter (pad : Z) (f : list R -> Z -> R) (tokens : list Z) :
  forall logits labels,
    sum_R (zip_with Rmult
             (map IZR (map (fun x => if x =? pad then 0 else 1) tokens))
             (zip_with f logits labels)) =
    sum_R (map (fun p => f p.1.2 p.2)
               (filter (fun p => p.1.1 <> pad)
                       (positions tokens logits labels))).
Proof.
  induction tokens as [|t tokens IH]; intros [|x logits] [|y labels];
    try done.
  unfold positions in *. cbn [map zip_with zip]. rewrite sum_R_cons, IH.
  destruct (Z.eqb_spec t pad) as [->|Hne].
  - rewrite filter_cons_False by (cbn; tauto). lra.
  - rewrite filter_cons_True by done. cbn [map]. rewrite sum_R_cons.
    cbn [fst snd]. lra.
Qed.

Lemma mul_1d_same_length (a b : list R) :
  length a = length b -> mul_1d a b = Ok (zip_with Rmult a b).
Proof. intros E. unfold mul_1d. by rewrite E, Nat.eqb_refl. Qed.

(** The loss of [compute] when its layers return and the shapes agree. *)
Lemma compute_combined_loss (tok : tokenizer) (net : network)
    (head : crf_head) (toks ids labels : list (list Z))
    (h : hidden_states net) (logits : list (list (list R))) (ll : R) :
  transformer_model net toks (where_ne toks (pad_token_id tok)) = Ok h ->
  linear_layer net h = Ok logits ->
  crf_layer net logits labels (where_ne toks (pad_token_id tok)) = Ok ll ->
  out_features head = 5%nat ->
  length (concat logits) = length (concat toks) ->
  length (concat labels) = length (concat toks) ->
  Forall (fun x => length x = 5%nat) (concat logits) ->
  Forall (fun y => 0 <= y < 5) (concat labels) ->
  compute tok net head (toks, ids, labels) false true =
    Ok (Loss (masked_cross_entropy (pad_token_id tok) (concat toks)
                (concat logits) (concat labels) + - ll)).
Proof.
  intros Ht Hlin Hcrf Hout Hlog Hlab Hx Hy.
  unfold compute. rewrite Ht. cbn [mbind result_bind].
  rewrite Hlin. cbn [mbind result_bind]. rewrite Hcrf. cbn [mbind result_bind].
  unfold cross_entropy_layer.
  rewrite Hlog, Hlab, Nat.eqb_refl, class_weights_length, Hout. cbn [negb Nat.eqb].
  rewrite (token_losses_weighted _ _ Hx Hy). cbn [mbind result_bind].
  rewrite concat_where_ne, mul_1d_same_length.
  - cbn [mbind result_bind]. by rewrite masked_sum_filter.
  - rewrite !length_map, length_zip_with. lia.
Qed.

(** C4, as the code has it: in loss mode with the cross-entropy option,
    when the layers return and the shapes agree, [compute] returns the
    class-weighted cross-entropy of the tokens summed over the non-pad
    positions, not divided by any length, plus the negative of the CRF
    log-likelihood. *)
Theorem compute_loss_masked_cross_entropy_plus_nll (tok : tokenizer)
    (net : network) (head : crf_head) (toks ids labels : list (list Z))
    (h : hidden_states net) (logits : list (list (list R))) (ll : R) :
  transformer_model net toks (where_ne toks (pad_token_id tok)) = Ok h ->
  linear_layer net h = Ok logits ->
  crf_layer net logits labels (where_ne toks (pad_token_id tok)) = Ok ll ->
  out_features head = 5%nat ->
  length (concat logits) = length (concat toks) ->
  length (concat labels) = length (concat toks) ->
  Forall (fun x => length x = 5%nat) (concat logits) ->
  Forall (fun y => 0 <= y < 5) (concat labels) ->
  compute tok net head (toks, ids, labels) false true =
    Ok (Loss (masked_cross_entropy (pad_token_id tok) (concat toks)
                (concat logits) (concat labels) + - ll)).
Proof. apply compute_combined_loss. Qed.

Lemma compute_loss_masked_cross_entropy_plus_nll_witness :
  compute Demo.tok Demo.net Demo.head
    (Demo.batch.1.1, where_eq Demo.batch.1.2 103, Demo.batch.2) false true =
  Ok (Loss (masked_cross_entropy 0 (concat Demo.batch.1.1)
              (concat (map (map (fun _ => [0; 0; 0; 0; 0]%R)) Demo.batch.1.1))
              (concat Demo.batch.2) + - (-1))).
Proof.
  apply (compute_loss_masked_cross_entropy_plus_nll Demo.tok Demo.net
           Demo.head Demo.batch.1.1 (where_eq Demo.batch.1.2 103)
           Demo.batch.2 Demo.batch.1.1
           (map (map (fun _ => [0; 0; 0; 0; 0]%R)) Demo.batch.1.1) (-1)%R).
  - reflexivity.
  - reflexivity.
  - reflexivity.
  - vm_compute. reflexivity.
  - reflexivity.
  - reflexivity.
  - cbn. repeat (apply List.Forall_cons; [reflexivity|]). apply List.Forall_nil.
  - cbn. repeat (apply List.Forall_cons; [lia|]). apply List.Forall_nil.
Defined.

Lemma zero_scores_cross_entropy :
  weighted_cross_entropy [0; 0; 0; 0; 0]%R 0 =
    (ln (33102 / 10000) * ln 5)%R.
Proof.
  unfold weighted_cross_entropy, softmax, class_weights.
  change (Z.to_nat 0) with 0%nat.
  cbn [nth map]. rewrite !sum_R_cons. cbn [sum_R foldr].
  rewrite exp_0.
  replace (1 / (1 + (1 + (1 + (1 + (1 + 0))))))%R with (/ 5)%R by lra.
  rewrite ln_Rinv by lra. ring.
Qed.

Lemma zero_scores_cross_entropy_pos :
  (0 < weighted_cross_entropy [0; 0; 0; 0; 0]%R 0)%R.
Proof.
  rewrite zero_scores_cross_entropy.
  apply Rmult_lt_0_compat; rewrite <-ln_1; apply ln_increasing; lra.
Qed.

(** C4, as the spec words it, fails: the cross-entropy term is not
    normalized by length.  On one row of two non-pad tokens with zero
    scores the loss is twice the cross-entropy of a token, not once. *)
Lemma compute_loss_not_length_normalized :
  ~ (forall (tok : tokenizer) (net : network) (head : crf_head)
            (toks ids labels : list (list Z)) (h : hidden_states net)
            (logits : list (list (list R))) (ll : R),
       transformer_model net toks (where_ne toks (pad_token_id tok)) = Ok h ->
       linear_layer net h = Ok logits ->
       crf_layer net logits labels (where_ne toks (pad_token_id tok)) = Ok ll ->
       out_features head = 5%nat ->
       length (concat logits) = length (concat toks) ->
       length (concat labels) = length (concat toks) ->
       Forall (fun x => length x = 5%nat) (concat logits) ->
       Forall (fun y => 0 <= y < 5) (concat labels) ->
       compute tok net head (toks, ids, labels) false true =
         Ok (Loss (length_normalized_cross_entropy (pad_token_id tok)
                     (concat toks) (concat logits) (concat labels) + - ll))).
Proof.
  intros Hclaim.
  pose (toks := [[5; 6]]). pose (labels := [[0; 0]]).
  pose (logits := [[[0; 0; 0; 0; 0]; [0; 0; 0; 0; 0]]]%R).
  assert (Forall (fun x : list R => length x = 5%nat) (concat logits)) as Hx.
  { cbn. repeat (apply List.Forall_cons; [reflexivity|]). apply List.Forall_nil. }
  assert (Forall (fun y => 0 <= y < 5) (concat labels)) as Hy.
  { cbn. repeat (apply List.Forall_cons; [lia|]). apply List.Forall_nil. }
  assert (out_features Demo.head = 5%nat) as Hout by (vm_compute; reflexivity).
  pose proof (Hclaim Demo.tok Demo.net Demo.head toks [[0; 0]] labels toks
                logits (-1)%R eq_refl eq_refl eq_refl Hout eq_refl eq_refl
                Hx Hy) as Hnorm.
  rewrite (compute_combined_loss Demo.tok Demo.net Demo.head toks [[0; 0]]
             labels toks logits (-1)%R eq_refl eq_refl eq_refl Hout eq_refl
             eq_refl Hx Hy) in Hnorm.
  injection Hnorm as Hnorm.
  unfold length_normalized_cross_entropy, masked_cross_entropy in Hnorm.
  cbn [toks labels logits concat app positions zip zip_with Demo.tok
       pad_token_id] in Hnorm.
  rewrite !filter_cons_True, !filter_nil in Hnorm by (cbn; lia).
  cbn [map length fst snd] in Hnorm. rewrite !sum_R_cons in Hnorm.
  cbn [sum_R foldr INR] in Hnorm.
  pose proof zero_scores_cross_entropy_pos as Hpos.
  lra.
Qed.

(** ** Training loop *)

Section Train.

Context (tok : tokenizer) (cfg : data_config) (net : network)
        (head : crf_head).

Lemma torch_tensor_inv rows t : torch_tensor rows = Ok t -> t = rows.
Proof. unfold torch_tensor. destruct (rectangular rows); congruence. Qed.

Lemma batch_loss_inv (batch : streams) (v : R) :
  batch_loss tok cfg net head batch = Ok v ->
  exists c,
    compute tok net head
      (batch.1.1, where_eq batch.1.2 (mask_token_id tok), batch.2)
      false true = Ok (Loss c) /\
    v = (c / IZR (batch_size cfg))%R.
Proof.
  destruct batch as [[toks masks] labels]. unfold batch_loss.
  destruct (torch_tensor toks) as [t|] eqn:Et; [|done].
  destruct (torch_tensor masks) as [m|] eqn:Em; [|done].
  destruct (torch_tensor labels) as [l|] eqn:El; [|done].
  apply torch_tensor_inv in Et as ->, Em as ->, El as ->.
  cbn [mbind result_bind fst snd].
  destruct (compute _ _ _ _ _ _) as [[c|p]|]; cbn; [|done..].
  intros [= <-]. by exists c.
Qed.

Lemma step_condition (n : nat) :
  (Z.of_nat n mod accumulate_over =? accumulate_over - 1) =
  ((n + 1) mod 4 =? 0)%nat.
Proof.
  unfold accumulate_over.
  destruct (Z.eqb_spec (Z.of_nat n mod 4) (4 - 1)),
           (Nat.eqb_spec ((n + 1) mod 4) 0);
    try reflexivity; exfalso; zify; Z.div_mod_to_equations; lia.
Qed.

Lemma train_loop_trace (g : generated streams) : forall (n : nat) events,
  train_loop tok cfg net head (Z.of_nat n) g = (events, None) ->
  exists losses,
    Forall2 (fun batch v => batch_loss tok cfg net head batch = Ok v)
            (yielded g) losses /\
    events = concat (imap (fun k => batch_events (n + k)) losses).
Proof.
  induction g as [|batch rest IH|e]; intros n events; cbn [train_loop].
  - intros [= <-]. exists []. by split; [constructor|].
  - destruct (batch_loss tok cfg net head batch) as [v|] eqn:Ev; [|done].
    replace (Z.of_nat n + 1) with (Z.of_nat (S n)) by lia.
    destruct (train_loop _ _ _ _ _ rest) as [events' ended] eqn:Er.
    intros [= <- ->].
    destruct (IH (S n) events' Er) as (losses & Hl & ->).
    exists (v :: losses). split; [by constructor|].
    rewrite imap_cons. cbn [concat]. unfold batch_events at 2.
    rewrite step_condition, Nat.add_0_r, <-!app_assoc.
    rewrite (imap_ext ((fun k => batch_events (n + k)) ∘ S)
                      (fun k => batch_events (S n + k)))
      by (intros k x _; unfold compose; f_equal; lia).
    reflexivity.
  - done.
Qed.

Lemma count_steps_app (a b : list event) :
  count_steps (a ++ b) = (count_steps a + count_steps b)%nat.
Proof. unfold count_steps. by rewrite List.filter_app, length_app. Qed.

Lemma count_steps_trace (losses : list R) : forall n : nat,
  count_steps (concat (imap (fun k => batch_events (n + k)) losses)) =
    ((n mod 4 + length losses) / 4)%nat.
Proof.
  induction losses as [|v losses IH]; intros n.
  - change (0 = (n mod 4 + 0) / 4)%nat. zify. Z.div_mod_to_equations. lia.
  - rewrite imap_cons. cbn [concat]. rewrite count_steps_app.
    rewrite (imap_ext ((fun k => batch_events (n + k)) ∘ S)
                      (fun k => batch_events (S n + k)))
      by (intros k x _; unfold compose; f_equal; lia).
    rewrite IH, Nat.add_0_r. unfold batch_events. cbn [length].
    destruct (Nat.eqb_spec ((n + 1) mod 4) 0) as [E|E].
    + change (count_steps _) with 1%nat. zify. Z.div_mod_to_equations. lia.
    + change (count_steps _) with 0%nat. zify. Z.div_mod_to_equations. lia.
Qed.

End Train.

(** C8: in a run of [train] that ends normally, the loss of each batch is
    what [compute] returns divided by the configured batch size, it is
    back-propagated, an optimizer step and a gradient reset follow every
    fourth batch and no other, and one more step ends the run whether or
    not the last window of four was full. *)
Theorem train_steps_every_fourth_batch_and_at_end {X} (tok : tokenizer)
    (cfg : data_config) (net : network) (head : crf_head)
    (dataset : list (thread_batch X)) (events : list event) :
  train tok cfg net head dataset = (events, None) ->
  exists losses : list R,
    Forall2
      (fun (batch : streams) v =>
         exists c,
           compute tok net head
             (batch.1.1, where_eq batch.1.2 (mask_token_id tok), batch.2)
             false true = Ok (Loss c) /\
           v = (c / IZR (batch_size cfg))%R)
      (yielded (get_comment_wise_dataset tok cfg dataset 512 8)) losses /\
    events = ZeroGrad :: concat (imap batch_events losses) ++ [Step] /\
    count_steps events = (length losses / 4 + 1)%nat /\
    last events = Some Step.
Proof.
  unfold train.
  destruct (train_loop _ _ _ _ _ _) as [evs ended] eqn:Er.
  destruct ended as [e|]; [done|]. intros [= <-].
  destruct (train_loop_trace tok cfg net head _ 0%nat evs Er)
    as (losses & Hl & ->).
  exists losses. split; [|split; [|split]].
  - eapply Forall2_impl; [exact Hl|]. intros batch v. apply batch_loss_inv.
  - reflexivity.
  - change (ZeroGrad :: ?l) with ([ZeroGrad] ++ l).
    rewrite !count_steps_app, (count_steps_trace losses 0).
    change (count_steps [ZeroGrad]) with 0%nat.
    change (count_steps [Step]) with 1%nat.
    change (0 mod 4)%nat with 0%nat. lia.
  - change (ZeroGrad :: ?l ++ [Step]) with ((ZeroGrad :: l) ++ [Step]).
    apply last_snoc.
Qed.

Lemma train_steps_every_fourth_batch_and_at_end_witness :
  exists losses : list R,
    Forall2
      (fun (batch : streams) v =>
         exists c,
           compute Demo.tok Demo.net Demo.head
             (batch.1.1, where_eq batch.1.2 103, batch.2)
             false true = Ok (Loss c) /\
           v = (c / IZR 16)%R)
      (yielded (get_comment_wise_dataset Demo.tok Demo.cfg
                  Demo.long_dataset 512 8)) losses /\
    (train Demo.tok Demo.cfg Demo.net Demo.head Demo.long_dataset).1 =
      ZeroGrad :: concat (imap batch_events losses) ++ [Step] /\
    count_steps
      (train Demo.tok Demo.cfg Demo.net Demo.head Demo.long_dataset).1 =
      (length losses / 4 + 1)%nat /\
    last (train Demo.tok Demo.cfg Demo.net Demo.head Demo.long_dataset).1 =
      Some Step.
Proof.
  apply (train_steps_every_fourth_batch_and_at_end Demo.tok Demo.cfg Demo.net
           Demo.head Demo.long_dataset).
  reflexivity.
Defined.

Example demo_train_steps :
  count_steps
    (train Demo.tok Demo.cfg Demo.net Demo.head Demo.long_dataset).1 = 2%nat /\
  length (yielded (get_comment_wise_dataset Demo.tok Demo.cfg
                     Demo.long_dataset 512 8)) = 4%nat.
Proof. split; reflexivity. Qed.

(** * Further properties *)

(** ** Thread splitter *)

Lemma split_loop_plain (split_on : list Z) (eos : Z) (thread : list Z) :
  forall init cur,
    sentinel_free split_on thread -> eos ∉ thread ->
    split_loop split_on eos (init ++ [cur]) thread = init ++ [cur ++ thread].
Proof.
  induction thread as [|elem rest IH]; intros init cur Hs He.
  - by rewrite app_nil_r.
  - rewrite split_loop_step.
    apply Forall_cons in Hs as [Hs Hrest].
    apply not_elem_of_cons in He as [Hne He]. rewrite Hs.
    destruct (Z.eqb_spec elem eos); [congruence|].
    rewrite IH by done. by rewrite <-app_assoc.
Qed.

(** X1: a thread without split sentinel and without terminator comes back
    as one sub-sequence, the thread itself; the empty thread gives one
    empty sub-sequence. *)
Theorem split_encoding_without_sentinel_or_terminator
    (tokenized_thread split_on : list Z) (eos_token_id : Z) :
  sentinel_free split_on tokenized_thread ->
  eos_token_id ∉ tokenized_thread ->
  split_encoding tokenized_thread split_on eos_token_id = [tokenized_thread].
Proof. intros Hs He. apply (split_loop_plain _ _ _ [] [] Hs He). Qed.

Lemma split_encoding_without_sentinel_or_terminator_witness :
  split_encoding [10; 11; 12] [7; 8] 9 = [[10; 11; 12]] /\
  split_encoding [] [7; 8] 9 = [[]].
Proof.
  split.
  - apply split_encoding_without_sentinel_or_terminator.
    + repeat (apply List.Forall_cons; [reflexivity|]). apply List.Forall_nil.
    + intros Hin. repeat (apply elem_of_cons in Hin as [Hin|Hin]; [lia|]).
      by apply elem_of_nil in Hin.
  - apply split_encoding_without_sentinel_or_terminator.
    + apply List.Forall_nil.
    + apply not_elem_of_nil.
Defined.

Lemma split_loop_length (split_on : list Z) (eos : Z) (thread : list Z) :
  forall init cur,
    length (split_loop split_on eos (init ++ [cur]) thread) =
    (length (init ++ [cur]) +
     count_sentinels split_on (truncate_at eos thread))%nat.
Proof.
  unfold count_sentinels.
  induction thread as [|elem rest IH]; intros init cur.
  - cbn. lia.
  - rewrite split_loop_step. cbn [truncate_at].
    destruct (contains elem split_on) eqn:Ec, (elem =? eos);
      cbn [List.filter]; rewrite ?Ec; rewrite ?IH; cbn [List.filter length];
      rewrite ?length_app; cbn [length]; lia.
Qed.

(** X2: [split_encoding] returns one sub-sequence more than there are
    split sentinels in the thread up to its first terminator; so at least
    one, and never more than the thread has tokens plus one. *)
Theorem split_encoding_count (tokenized_thread split_on : list Z)
    (eos_token_id : Z) :
  length (split_encoding tokenized_thread split_on eos_token_id) =
    S (count_sentinels split_on (truncate_at eos_token_id tokenized_thread)) /\
  (length (split_encoding tokenized_thread split_on eos_token_id) <=
     S (length tokenized_thread))%nat.
Proof.
  assert (length (split_encoding tokenized_thread split_on eos_token_id) =
          S (count_sentinels split_on
               (truncate_at eos_token_id tokenized_thread))) as E.
  { exact (split_loop_length split_on eos_token_id tokenized_thread [] []). }
  split; [exact E|]. rewrite E. apply le_n_S. unfold count_sentinels.
  etransitivity; [apply List.filter_length_le|].
  apply truncate_at_length.
Qed.

(** ** Batch padder *)

Lemma fold_left_max_attained (xs : list nat) : forall x,
  fold_left Nat.max xs x = x \/ fold_left Nat.max xs x ∈ xs.
Proof.
  induction xs as [|y xs IH]; intros x; [by left|].
  cbn. destruct (IH (Nat.max x y)) as [E|Hin].
  - rewrite E. destruct (Nat.max_spec x y) as [[_ ->]|[_ ->]];
      [right; apply list_elem_of_here|by left].
  - right. by apply list_elem_of_further.
Qed.

Lemma max_attained (xs : list nat) (n : nat) : max_ xs = Ok n -> n ∈ xs.
Proof.
  destruct xs as [|x xs]; [done|]. intros [= <-].
  destruct (fold_left_max_attained xs x) as [->|Hin];
    [apply list_elem_of_here|by apply list_elem_of_further].
Qed.

(** X3: on a non-empty collection [pad_batch] returns as many rows as it
    got, each one its input row followed by fill values only, all of the
    length of the longest input row; a longest row comes back unchanged. *)
Theorem pad_batch_shape (elems : list (list Z)) (pad_token_id : Z) :
  elems <> [] ->
  exists padded n,
    pad_batch elems pad_token_id = Ok padded /\
    Forall2 (fun elem row =>
               row = elem ++ replicate (n - length elem) pad_token_id /\
               length row = n)
            elems padded /\
    exists elem, elem ∈ elems /\ length elem = n /\ elem ∈ padded.
Proof.
  intros Hne. destruct (pad_batch_nonempty elems pad_token_id Hne) as [padded E].
  exists padded. unfold pad_batch in E.
  destruct (max_ (map length elems)) as [n|] eqn:Emax; [|done].
  cbn in E. injection E as <-. exists n.
  split; [unfold pad_batch; by rewrite Emax|].
  pose proof (max_ge _ _ Emax) as Hge. rewrite Forall_map in Hge.
  split.
  - apply Forall2_fmap_r, Forall_Forall2_diag.
    eapply Forall_impl; [exact Hge|]. cbn. intros elem Hle.
    split; [done|]. rewrite length_app, length_replicate. lia.
  - apply max_attained in Emax.
    apply list_elem_of_fmap in Emax as (elem & Hlen & Hin).
    exists elem. split; [done|]. split; [done|].
    apply list_elem_of_fmap. exists elem. split; [|done].
    rewrite <-Hlen, Nat.sub_diag. cbn. by rewrite app_nil_r.
Qed.

Lemma pad_batch_shape_witness :
  exists padded n,
    pad_batch [[1; 2]; [1; 2; 3]; [1]] 0 = Ok padded /\
    Forall2 (fun elem row =>
               row = elem ++ replicate (n - length elem) 0 /\ length row = n)
            [[1; 2]; [1; 2; 3]; [1]] padded /\
    exists elem, elem ∈ [[1; 2]; [1; 2; 3]; [1]] /\ length elem = n /\
                 elem ∈ padded.
Proof. apply (pad_batch_shape [[1; 2]; [1; 2; 3]; [1]] 0). discriminate. Defined.

Lemma pad_batch_uniform (elems : list (list Z)) (pad : Z) (n : nat) :
  elems <> [] -> Forall (fun row => length row = n) elems ->
  pad_batch elems pad = Ok elems.
Proof.
  intros Hne Hall. unfold pad_batch.
  destruct (max_ (map length elems)) as [m|] eqn:Emax.
  - cbn. f_equal.
    assert (m = n) as ->.
    { apply max_attained, list_elem_of_fmap in Emax as (row & -> & Hin).
      rewrite Forall_forall in Hall. by apply Hall. }
    rewrite <-(map_id elems) at 2. apply map_ext_Forall.
    eapply Forall_impl; [exact Hall|]. cbn. intros row ->.
    rewrite Nat.sub_diag. cbn. apply app_nil_r.
  - by destruct elems.
Qed.

(** X4: padding is idempotent: rows that already have one length come back
    unchanged, and padding the result of [pad_batch] again, with any fill
    value, changes nothing. *)
Theorem pad_batch_idempotent (elems padded : list (list Z))
    (pad_token_id other_pad : Z) :
  (forall n, elems <> [] -> Forall (fun row => length row = n) elems ->
             pad_batch elems pad_token_id = Ok elems) /\
  (pad_batch elems pad_token_id = Ok padded ->
   pad_batch padded other_pad = Ok padded).
Proof.
  split; [intros n; apply pad_batch_uniform|].
  intros E. pose proof (pad_batch_rows _ _ _ E) as (n & Hmax & Hlen & Hall).
  apply (pad_batch_uniform padded other_pad n); [|done].
  intros ->. destruct elems; [done|discriminate].
Qed.

Lemma pad_batch_idempotent_witness :
  pad_batch [[1; 2]; [3; 4]] 0 = Ok [[1; 2]; [3; 4]] /\
  pad_batch [[1; 2; 0]; [1; 2; 3]; [1; 0; 0]] 7 =
    Ok [[1; 2; 0]; [1; 2; 3]; [1; 0; 0]].
Proof.
  split.
  - apply (proj1 (pad_batch_idempotent [[1; 2]; [3; 4]] [] 0 0) 2%nat).
    + discriminate.
    + repeat (apply List.Forall_cons; [reflexivity|]). apply List.Forall_nil.
  - apply (proj2 (pad_batch_idempotent [[1; 2]; [1; 2; 3]; [1]]
                    [[1; 2; 0]; [1; 2; 3]; [1; 0; 0]] 0 7)).
    reflexivity.
Defined.

(** ** Comment-wise data set generator *)

Section GeneratorEdges.

Context (tok : tokenizer) (cfg : data_config).

Lemma squeeze0_length {A} (a : list A) :
  (length a = 1%nat /\ exists x, squeeze0 a = Ok x) \/
  (length a <> 1%nat /\ squeeze0 a = Raise ValueError).
Proof. destruct a as [|x [|y a]]; cbn; [by right|left; eauto|by right]. Qed.

Lemma collect_comments_unsqueezable {X} split_on eos
    (dataset : list (thread_batch X)) : forall cw,
  Exists unsqueezable dataset ->
  collect_comments split_on eos dataset cw = Raise ValueError.
Proof.
  induction dataset as [|[[[T M] L] x] rest IH]; intros cw Hex.
  - by apply Exists_nil in Hex.
  - cbn [collect_comments].
    destruct (squeeze0_length T) as [[HT [t ->]]|[HT ->]]; [|done].
    destruct (squeeze0_length M) as [[HM [m ->]]|[HM ->]]; [|done].
    destruct (squeeze0_length L) as [[HL [l ->]]|[HL ->]]; [|done].
    cbn. apply IH. apply Exists_cons in Hex as [Hbad|Hex]; [|done].
    cbn in Hbad. tauto.
Qed.

Lemma collect_comments_squeezable {X} split_on eos
    (dataset : list (thread_batch X)) : forall cw,
  ~ Exists unsqueezable dataset ->
  exists comments, collect_comments split_on eos dataset cw = Ok comments.
Proof.
  induction dataset as [|[[[T M] L] x] rest IH]; intros cw Hex.
  - by eexists.
  - cbn [collect_comments].
    rewrite Exists_cons in Hex. cbn in Hex.
    destruct (squeeze0_length T) as [[HT [t ->]]|[HT ->]]; [|tauto].
    destruct (squeeze0_length M) as [[HM [m ->]]|[HM ->]]; [|tauto].
    destruct (squeeze0_length L) as [[HL [l ->]]|[HL ->]]; [|tauto].
    cbn. apply IH. tauto.
Qed.

Lemma slice_to_bound {A} (xs : list A) (n : Z) :
  0 <= n -> (length (slice_to xs n) <= Z.to_nat n)%nat.
Proof.
  intros Hn. unfold slice_to. destruct (Z.leb_spec 0 n); [|lia].
  rewrite length_take. lia.
Qed.

(** Every yielded batch is padded from rows cut at [max_len], and whatever
    holds of such rows as they pile up holds of the rows it is padded
    from. *)
Lemma batch_loop_yielded_inv (Q : streams -> Prop) max_len batch_size :
  Q no_rows ->
  (forall ct cm cl t m l,
     Q (ct, cm, cl) ->
     Q (ct ++ [slice_to t max_len], cm ++ [slice_to m max_len],
        cl ++ [slice_to l max_len])) ->
  forall toks masks labels i cw,
    Q cw ->
    Forall (fun b => exists cw', Q cw' /\ pad_streams tok cfg cw' = Ok b)
           (yielded (batch_loop tok cfg max_len batch_size i
                                toks masks labels cw)).
Proof.
  intros Q0 Qstep. induction toks as [|t toks IH];
    intros [|m masks] [|l labels] i [[ct cm] cl] Hcw;
    try (cbn; constructor).
  cbn [batch_loop]. destruct (mod_ (i + 1) batch_size) as [r|]; [|constructor].
  destruct (r =? 0); [|by apply IH, Qstep].
  destruct (pad_streams _ _ _) as [b|] eqn:Ep; [|constructor].
  cbn. constructor; [|by apply IH].
  eexists. split; [|exact Ep]. by apply Qstep.
Qed.

Lemma rectangular_uniform (rows : list (list Z)) (n : nat) :
  Forall (fun row => length row = n) rows -> rectangular rows = true.
Proof.
  destruct rows as [|row rows]; [done|]. intros Hall.
  apply Forall_cons in Hall as [<- Hall]. cbn.
  apply forallb_forall. intros r Hin. apply Nat.eqb_eq.
  rewrite Forall_forall in Hall. apply Hall. by apply list_elem_of_In.
Qed.

End GeneratorEdges.

(** X5: the generator squeezes the arrays of all thread batches before it
    yields anything: if an array of some thread batch has a leading axis
    of a size other than one, iterating it raises [ValueError] and no
    batch is emitted, whatever the batch size; otherwise the first phase
    collects the comments without error. *)
Theorem generator_squeeze_error {X} (tok : tokenizer) (cfg : data_config)
    (dataset : list (thread_batch X)) (max_len batch_size : Z) :
  (Exists unsqueezable dataset ->
   get_comment_wise_dataset tok cfg dataset max_len batch_size =
     Throw ValueError) /\
  (~ Exists unsqueezable dataset ->
   exists comments,
     collect_comments (user_token_indices tok cfg) (eos_token_id tok)
                      dataset no_rows = Ok comments).
Proof.
  split.
  - intros Hex. unfold get_comment_wise_dataset.
    by rewrite collect_comments_unsqueezable.
  - apply collect_comments_squeezable.
Qed.

Lemma generator_squeeze_error_witness :
  get_comment_wise_dataset Demo.tok Demo.cfg
    (Demo.dataset ++ [([[[5]]; [[6]]], [[[5]]], [[[0]]], tt)]) 512 4 =
    Throw ValueError /\
  exists comments,
    collect_comments (user_token_indices Demo.tok Demo.cfg)
                     (eos_token_id Demo.tok) Demo.dataset no_rows =
      Ok comments.
Proof.
  split.
  - apply (proj1 (generator_squeeze_error Demo.tok Demo.cfg
                    (Demo.dataset ++ [([[[5]]; [[6]]], [[[5]]], [[[0]]], tt)])
                    512 4)).
    apply Exists_app. right. apply Exists_cons. left. cbn. left. lia.
  - apply (proj2 (generator_squeeze_error Demo.tok Demo.cfg Demo.dataset
                    512 4)).
    intros Hex. apply Exists_cons in Hex as [Hbad|Hex].
    + cbn in Hbad. lia.
    + by apply Exists_nil in Hex.
Defined.

(** X6: with a batch size of zero the generator raises
    [ZeroDivisionError] at the first comment, before it yields anything;
    only when there is no comment at all does it end normally. *)
Theorem generator_zero_batch_size {X} (tok : tokenizer) (cfg : data_config)
    (dataset : list (thread_batch X)) (max_len : Z) (comments : streams) :
  collect_comments (user_token_indices tok cfg) (eos_token_id tok)
                   dataset no_rows = Ok comments ->
  get_comment_wise_dataset tok cfg dataset max_len 0 =
    if Nat.eqb (rows comments) 0 then Stop else Throw ZeroDivisionError.
Proof.
  intros Ec. unfold get_comment_wise_dataset. rewrite Ec.
  apply rows_collect_comments in Ec as [Hm Hl]; [|done..].
  destruct comments as [[[|t toks] [|m masks]] [|l labels]]; done.
Qed.

Lemma generator_zero_batch_size_witness :
  get_comment_wise_dataset Demo.tok Demo.cfg Demo.dataset 512 0 =
    Throw ZeroDivisionError /\
  get_comment_wise_dataset Demo.tok Demo.cfg
    ([] : list (thread_batch unit)) 512 0 = Stop.
Proof.
  split.
  - apply (generator_zero_batch_size Demo.tok Demo.cfg Demo.dataset 512
             ([[5; 6]; [28996; 7]; [28997; 8; 102];
               []; [28996; 9]; [28997; 10; 11; 102]],
              [[5; 103]; [28996; 7]; [28997; 103; 102];
               []; [28996; 103]; [28997; 10; 11; 102]],
              [[0; 0]; [0; 1]; [0; 3; 0]; []; [0; 1]; [0; 3; 4; 0]])).
    reflexivity.
  - apply (generator_zero_batch_size Demo.tok Demo.cfg [] 512 no_rows).
    reflexivity.
Defined.

Lemma pad_batch_rows_bounded (elems padded : list (list Z)) (pad : Z)
    (bound : nat) :
  Forall (fun row => (length row <= bound)%nat) elems ->
  pad_batch elems pad = Ok padded ->
  Forall (fun row => (length row <= bound)%nat) padded.
Proof.
  intros Hb E. apply pad_batch_rows in E as (n & Hmax & _ & Hall).
  apply max_attained, list_elem_of_fmap in Hmax as (row & -> & Hin).
  rewrite Forall_forall in Hb. pose proof (Hb row Hin) as Hle.
  eapply Forall_impl; [exact Hall|]. cbn. intros r ->. exact Hle.
Qed.

(** X7: with a non-negative [max_len] no row of an emitted batch, token,
    mask or label row, is longer than [max_len]: comments are cut before
    they are padded, and padding goes no further than the longest cut
    row. *)
Theorem generator_rows_within_max_len {X} (tok : tokenizer)
    (cfg : data_config) (dataset : list (thread_batch X))
    (max_len batch_size : Z) :
  0 <= max_len ->
  forall toks masks labels,
    (toks, masks, labels) ∈
      yielded (get_comment_wise_dataset tok cfg dataset max_len batch_size) ->
    Forall (fun row => Z.of_nat (length row) <= max_len) toks /\
    Forall (fun row => Z.of_nat (length row) <= max_len) masks /\
    Forall (fun row => Z.of_nat (length row) <= max_len) labels.
Proof.
  intros Hmax toks masks labels Hin.
  set (bounded := fun rows : list (list Z) =>
         Forall (fun row => (length row <= Z.to_nat max_len)%nat) rows).
  set (Q := fun s : streams => bounded s.1.1 /\ bounded s.1.2 /\ bounded s.2).
  assert (Forall (fun b => exists cw', Q cw' /\ pad_streams tok cfg cw' = Ok b)
            (yielded (get_comment_wise_dataset tok cfg dataset
                        max_len batch_size))) as Hall.
  { unfold get_comment_wise_dataset.
    destruct (collect_comments _ _ _ _) as [[[ts ms] ls]|]; [|constructor].
    apply batch_loop_yielded_inv.
    - repeat split; constructor.
    - intros ct cm cl t m l (Ht & Hm & Hl).
      repeat split; cbn; apply Forall_app; (split; [done|]);
        apply Forall_singleton, slice_to_bound, Hmax.
    - repeat split; constructor. }
  rewrite Forall_forall in Hall.
  destruct (Hall _ Hin) as ([[ct cm] cl] & (Ht & Hm & Hl) & Ep).
  apply pad_streams_inv in Ep as (Et & Em & El). cbn in Ht, Hm, Hl.
  repeat split;
    (eapply Forall_impl;
     [eapply pad_batch_rows_bounded; [|eassumption]; eassumption|]);
    cbn; intros row Hle; lia.
Qed.

Lemma generator_rows_within_max_len_witness :
  Forall (fun row => Z.of_nat (length row) <= 2)
    [[5; 6]; [28996; 7]; [28997; 8]; [0; 0]].
Proof.
  apply (generator_rows_within_max_len Demo.tok Demo.cfg Demo.dataset 2 4
           ltac:(lia)
           [[5; 6]; [28996; 7]; [28997; 8]; [0; 0]]
           [[5; 103]; [28996; 7]; [28997; 103]; [0; 0]]
           [[0; 0]; [0; 1]; [0; 3]; [0; 0]]).
  apply list_elem_of_here.
Defined.

(** X8: every emitted batch is rectangular in each of its three streams,
    so the [torch.tensor] conversions of [train] and [evaluate] accept
    it. *)
Theorem generator_batches_are_tensors {X} (tok : tokenizer)
    (cfg : data_config) (dataset : list (thread_batch X))
    (max_len batch_size : Z) :
  forall toks masks labels,
    (toks, masks, labels) ∈
      yielded (get_comment_wise_dataset tok cfg dataset max_len batch_size) ->
    torch_tensor toks = Ok toks /\ torch_tensor masks = Ok masks /\
    torch_tensor labels = Ok labels.
Proof.
  intros toks masks labels Hin.
  assert (Forall (fun b => exists cw', True /\ pad_streams tok cfg cw' = Ok b)
            (yielded (get_comment_wise_dataset tok cfg dataset
                        max_len batch_size))) as Hall.
  { unfold get_comment_wise_dataset.
    destruct (collect_comments _ _ _ _) as [[[ts ms] ls]|]; [|constructor].
    by apply (batch_loop_yielded_inv tok cfg (fun _ => True)). }
  rewrite Forall_forall in Hall.
  destruct (Hall _ Hin) as ([[ct cm] cl] & _ & Ep).
  apply pad_streams_inv in Ep as (Et & Em & El).
  apply pad_batch_rows in Et as (n1 & _ & _ & Ht).
  apply pad_batch_rows in Em as (n2 & _ & _ & Hm).
  apply pad_batch_rows in El as (n3 & _ & _ & Hl).
  unfold torch_tensor.
  by rewrite (rectangular_uniform _ _ Ht), (rectangular_uniform _ _ Hm),
             (rectangular_uniform _ _ Hl).
Qed.

Lemma generator_batches_are_tensors_witness :
  torch_tensor Demo.batch.1.1 = Ok Demo.batch.1.1 /\
  torch_tensor Demo.batch.1.2 = Ok Demo.batch.1.2 /\
  torch_tensor Demo.batch.2 = Ok Demo.batch.2.
Proof.
  apply (generator_batches_are_tensors Demo.tok Demo.cfg Demo.dataset 512 4).
  apply list_elem_of_here.
Defined.

Lemma append_comments_slices (splitted : list (list Z)) :
  forall (m l : list Z) toks masks labels,
  exists mask_rows label_rows,
    append_comments splitted m l (toks, masks, labels) =
      (toks ++ splitted, masks ++ mask_rows, labels ++ label_rows) /\
    length mask_rows = length splitted /\
    length label_rows = length splitted /\
    concat mask_rows = take (length (concat splitted)) m /\
    concat label_rows = take (length (concat splitted)) l.
Proof.
  induction splitted as [|elem rest IH]; intros m l toks masks labels.
  - exists [], []. by rewrite !app_nil_r.
  - cbn [append_comments].
    destruct (IH (drop (length elem) m) (drop (length elem) l)
                 (toks ++ [elem]) (masks ++ [take (length elem) m])
                 (labels ++ [take (length elem) l]))
      as (mr & lr & -> & Hm & Hl & Hcm & Hcl).
    exists (take (length elem) m :: mr), (take (length elem) l :: lr).
    rewrite <-!app_assoc. split; [done|]. cbn [length concat].
    rewrite Hm, Hl, Hcm, Hcl, length_app, !take_take_drop. done.
Qed.

(** X9: the mask rows and the label rows that the generator cuts for the
    comments of a thread are consecutive pieces of the thread's mask and
    labels: one row per comment, and joined in order they are the mask,
    or the labels, up to the number of tokens kept by the splitter,
    nothing skipped and nothing repeated. *)
Theorem comment_slices_are_consecutive (tokenized_thread masked_thread
    comp_type_label split_on : list Z) (eos : Z) :
  exists mask_rows label_rows,
    append_threads split_on eos [tokenized_thread] [masked_thread]
                   [comp_type_label] no_rows =
      (split_encoding tokenized_thread split_on eos, mask_rows, label_rows) /\
    length mask_rows = length (split_encoding tokenized_thread split_on eos) /\
    length label_rows = length (split_encoding tokenized_thread split_on eos) /\
    concat mask_rows =
      take (length (truncate_at eos tokenized_thread)) masked_thread /\
    concat label_rows =
      take (length (truncate_at eos tokenized_thread)) comp_type_label.
Proof.
  destruct (append_comments_slices
              (split_encoding tokenized_thread split_on eos)
              masked_thread comp_type_label [] [] [])
    as (mr & lr & E & Hm & Hl & Hcm & Hcl).
  exists mr, lr. cbn [append_threads]. unfold no_rows. rewrite E.
  rewrite split_encoding_concat in Hcm, Hcl. done.
Qed.

Section GeneratorChunks.

Context (tok : tokenizer) (cfg : data_config) (max_len : Z).

(** From a buffer that [d] more rows fill, the loop runs to its next
    [yield]: the buffer and the next [d] rows, padded. *)
Lemma batch_loop_fill (bs : Z) (Hbs : 0 < bs) (d : nat) :
  forall toks masks labels i ct cm cl,
    length cm = length ct -> length cl = length ct ->
    Z.of_nat (length ct) = i mod bs ->
    Z.of_nat (length ct + S d) = bs ->
    (S d <= length toks)%nat -> (S d <= length masks)%nat ->
    (S d <= length labels)%nat ->
    exists batch,
      pad_streams tok cfg
        (ct ++ map (fun row => slice_to row max_len) (take (S d) toks), cm ++ map (fun row => slice_to row max_len) (take (S d) masks),
         cl ++ map (fun row => slice_to row max_len) (take (S d) labels)) = Ok batch /\
      batch_loop tok cfg max_len bs i toks masks labels (ct, cm, cl) =
        Yield batch
          (batch_loop tok cfg max_len bs (i + Z.of_nat (S d))
             (drop (S d) toks) (drop (S d) masks) (drop (S d) labels)
             no_rows).
Proof.
  induction d as [|d IH];
    intros [|t toks] [|m masks] [|l labels] i ct cm cl Hcm Hcl Hi Hfull
      Ht Hm Hl; cbn [length] in Ht, Hm, Hl; try lia.
  - destruct (pad_streams_snoc tok cfg ct cm cl (slice_to t max_len) (slice_to m max_len) (slice_to l max_len))
      as (batch & Ep & _).
    exists batch. cbn [take map drop]. split; [exact Ep|].
    apply batch_loop_emit; [|lia|exact Ep].
    destruct (succ_mod i bs Hbs) as [[E _]|[_ E]]; [done|].
    pose proof (Z.mod_pos_bound (i + 1) bs Hbs). lia.
  - destruct (IH toks masks labels (i + 1)
                (ct ++ [slice_to t max_len]) (cm ++ [slice_to m max_len])
                (cl ++ [slice_to l max_len]))
      as (batch & Ep & El); rewrite ?length_app; cbn [length]; try lia.
    { destruct (succ_mod i bs Hbs) as [[_ E]|[_ E]]; lia. }
    exists batch. split.
    + cbn [take map]. rewrite <-!app_assoc in Ep. exact Ep.
    + rewrite batch_loop_keep; [| |lia].
      * rewrite El. cbn [drop]. do 2 f_equal. lia.
      * destruct (succ_mod i bs Hbs) as [[_ E]|[E _]]; [lia|done].
Qed.

Lemma batch_loop_chunks (bs : nat) (Hbs : (0 < bs)%nat) (k : nat) :
  forall toks masks labels i,
    i mod Z.of_nat bs = 0 ->
    length masks = length toks -> length labels = length toks ->
    (S k * bs <= length toks)%nat ->
    exists batch,
      yielded (batch_loop tok cfg max_len (Z.of_nat bs) i
                          toks masks labels no_rows) !! k = Some batch /\
      pad_streams tok cfg
        (chunk max_len bs k toks, chunk max_len bs k masks,
         chunk max_len bs k labels) = Ok batch.
Proof.
  destruct bs as [|d]; [lia|]. unfold no_rows.
  induction k as [|k IH]; intros toks masks labels i Hi Hm Hl Hk.
  - destruct (batch_loop_fill (Z.of_nat (S d)) ltac:(lia) d toks masks labels
                i [] [] []) as (batch & Ep & El); cbn [length]; try lia.
    unfold no_rows in El. rewrite El.
    exists batch. split; [done|]. unfold chunk. by rewrite !drop_0.
  - destruct (batch_loop_fill (Z.of_nat (S d)) ltac:(lia) d toks masks labels
                i [] [] []) as (batch & _ & El); cbn [length]; try lia.
    unfold no_rows in El. rewrite El.
    cbn [yielded]. rewrite lookup_cons.
    destruct (IH (drop (S d) toks) (drop (S d) masks) (drop (S d) labels)
                 (i + Z.of_nat (S d))) as (b & Hb & Ep).
    + rewrite <-Z.add_mod_idemp_l, Hi, Z.add_0_l, Z.mod_same by lia. done.
    + rewrite !length_drop. lia.
    + rewrite !length_drop. lia.
    + rewrite length_drop. lia.
    + exists b. split; [exact Hb|].
      unfold chunk in *. rewrite !drop_drop in Ep.
      replace (S (S k) * S d)%nat with (S d + S k * S d)%nat by lia.
      exact Ep.
Qed.

End GeneratorChunks.

(** X10: with a positive batch size the batch of index [k] is made of the
    comments of index [k * batch_size] to [k * batch_size + batch_size - 1]
    in the order they were collected: each stream holds those rows, cut at
    [max_len] and padded, as long as that many comments exist. *)
Theorem generator_batch_contents {X} (tok : tokenizer) (cfg : data_config)
    (dataset : list (thread_batch X)) (max_len : Z) (bs k : nat)
    (toks masks labels : list (list Z)) :
  (0 < bs)%nat ->
  collect_comments (user_token_indices tok cfg) (eos_token_id tok)
                   dataset no_rows = Ok (toks, masks, labels) ->
  (S k * bs <= length toks)%nat ->
  exists batch,
    yielded (get_comment_wise_dataset tok cfg dataset max_len (Z.of_nat bs))
      !! k = Some batch /\
    pad_batch (chunk max_len bs k toks) (pad_token_id tok) = Ok batch.1.1 /\
    pad_batch (chunk max_len bs k masks) (pad_token_id tok) = Ok batch.1.2 /\
    pad_batch (chunk max_len bs k labels) (pad_for_comp_type_labels cfg) =
      Ok batch.2.
Proof.
  intros Hbs Ec Hk. unfold get_comment_wise_dataset. rewrite Ec.
  apply rows_collect_comments in Ec as [Hm Hl]; [|done..]. cbn in Hm, Hl.
  destruct (batch_loop_chunks tok cfg max_len bs Hbs k toks masks labels 0)
    as ([[bt bm] bl] & Hb & Ep); [by rewrite Z.mod_0_l by lia|lia|lia|done|].
  exists (bt, bm, bl). split; [exact Hb|].
  by apply pad_streams_inv in Ep.
Qed.

Lemma generator_batch_contents_witness :
  exists batch,
    yielded (get_comment_wise_dataset Demo.tok Demo.cfg Demo.dataset 512
               (Z.of_nat 2)) !! 2%nat = Some batch /\
    pad_batch [[28996; 9]; [28997; 10; 11; 102]] 0 = Ok batch.1.1 /\
    pad_batch [[28996; 103]; [28997; 10; 11; 102]] 0 = Ok batch.1.2 /\
    pad_batch [[0; 1]; [0; 3; 4; 0]] 0 = Ok batch.2.
Proof.
  apply (generator_batch_contents Demo.tok Demo.cfg Demo.dataset 512 2 2
           [[5; 6]; [28996; 7]; [28997; 8; 102];
            []; [28996; 9]; [28997; 10; 11; 102]]
           [[5; 103]; [28996; 7]; [28997; 103; 102];
            []; [28996; 103]; [28997; 10; 11; 102]]
           [[0; 0]; [0; 1]; [0; 3; 0]; []; [0; 1]; [0; 3; 4; 0]]).
  - lia.
  - reflexivity.
  - cbn. lia.
Defined.

(** ** Transition constraints *)

Lemma allowed_transitions_value (ac_dict : gmap string Z) (o bc ic bp ip : Z) :
  ac_dict !! "O" = Some o -> ac_dict !! "B-C" = Some bc ->
  ac_dict !! "I-C" = Some ic -> ac_dict !! "B-P" = Some bp ->
  ac_dict !! "I-P" = Some ip ->
  allowed_transitions ac_dict =
    Ok [(bc, ic); (bp, ip);
        (ic, ic); (ic, bc); (ic, bp); (ic, o);
        (ip, ip); (ip, bc); (ip, bp); (ip, o);
        (o, o); (o, bc); (o, bp)].
Proof.
  intros Ho Hbc Hic Hbp Hip.
  unfold allowed_transitions, transitions_from, getitem.
  by rewrite Ho, Hbc, Hic, Hbp, Hip.
Qed.

(** X11: [allowed_transitions] needs the five tags O, B-C, I-C, B-P and
    I-P and no other: when the dictionary has them it is the list of
    thirteen pairs over their ids, whatever else the dictionary holds, and
    when one of them is missing building it raises [KeyError]. *)
Theorem allowed_transitions_needs_five_tags (ac_dict : gmap string Z) :
  (forall o bc ic bp ip,
     ac_dict !! "O" = Some o -> ac_dict !! "B-C" = Some bc ->
     ac_dict !! "I-C" = Some ic -> ac_dict !! "B-P" = Some bp ->
     ac_dict !! "I-P" = Some ip ->
     allowed_transitions ac_dict =
       Ok [(bc, ic); (bp, ip);
           (ic, ic); (ic, bc); (ic, bp); (ic, o);
           (ip, ip); (ip, bc); (ip, bp); (ip, o);
           (o, o); (o, bc); (o, bp)]) /\
  (ac_dict !! "O" = None \/ ac_dict !! "B-C" = None \/
   ac_dict !! "I-C" = None \/ ac_dict !! "B-P" = None \/
   ac_dict !! "I-P" = None ->
   allowed_transitions ac_dict = Raise KeyError).
Proof.
  split; [apply allowed_transitions_value|].
  unfold allowed_transitions, transitions_from, getitem.
  destruct (ac_dict !! "B-C"), (ac_dict !! "I-C"), (ac_dict !! "B-P"),
           (ac_dict !! "I-P"), (ac_dict !! "O");
    cbn; try reflexivity.
  intros [H|[H|[H|[H|H]]]]; discriminate.
Qed.

Lemma allowed_transitions_needs_five_tags_witness :
  allowed_transitions (arg_components Demo.cfg) =
    Ok [(1, 2); (3, 4); (2, 2); (2, 1); (2, 3); (2, 0);
        (4, 4); (4, 1); (4, 3); (4, 0); (0, 0); (0, 1); (0, 3)] /\
  allowed_transitions (delete "I-P" (arg_components Demo.cfg)) =
    Raise KeyError.
Proof.
  split.
  - apply (proj1 (allowed_transitions_needs_five_tags
                    (arg_components Demo.cfg)) 0 1 2 3 4); reflexivity.
  - apply (proj2 (allowed_transitions_needs_five_tags
                    (delete "I-P" (arg_components Demo.cfg)))).
    do 4 right. reflexivity.
Defined.

(** X12: when the five tags have distinct ids, the allowed transitions
    keep the BIO scheme: an inside tag is entered only from the begin or
    the inside tag of its own type, and a begin tag is followed by the
    inside tag of its type and by nothing else. *)
Theorem allowed_transitions_bio (ac_dict : gmap string Z)
    (o bc ic bp ip : Z) (allowed : list (Z * Z)) :
  ac_dict !! "O" = Some o -> ac_dict !! "B-C" = Some bc ->
  ac_dict !! "I-C" = Some ic -> ac_dict !! "B-P" = Some bp ->
  ac_dict !! "I-P" = Some ip ->
  NoDup [o; bc; ic; bp; ip] ->
  allowed_transitions ac_dict = Ok allowed ->
  forall a b,
    (a, b) ∈ allowed ->
    (b = ic -> a = bc \/ a = ic) /\
    (b = ip -> a = bp \/ a = ip) /\
    (a = bc -> b = ic) /\
    (a = bp -> b = ip).
Proof.
  intros Ho Hbc Hic Hbp Hip Hnd E a b Hin.
  rewrite (allowed_transitions_value _ _ _ _ _ _ Ho Hbc Hic Hbp Hip) in E.
  injection E as <-.
  assert (o <> bc /\ o <> ic /\ o <> bp /\ o <> ip /\ bc <> ic /\
          bc <> bp /\ bc <> ip /\ ic <> bp /\ ic <> ip /\ bp <> ip)
    as (?&?&?&?&?&?&?&?&?&?).
  { repeat (apply NoDup_cons in Hnd as [? Hnd]).
    repeat match goal with
           | H : _ ∉ _ :: _ |- _ => apply not_elem_of_cons in H as [? ?]
           end.
    repeat split; congruence. }
  repeat (apply elem_of_cons in Hin as [[= -> ->]|Hin];
          [repeat split; intros; subst; tauto || congruence|]).
  by apply elem_of_nil in Hin.
Qed.

Lemma allowed_transitions_bio_witness :
  (4 = 2 -> 3 = 1 \/ 3 = 2) /\ (4 = 4 -> 3 = 3 \/ 3 = 4) /\
  (3 = 1 -> 4 = 2) /\ (3 = 3 -> 4 = 4).
Proof.
  apply (allowed_transitions_bio (arg_components Demo.cfg) 0 1 2 3 4
           [(1, 2); (3, 4); (2, 2); (2, 1); (2, 3); (2, 0);
            (4, 4); (4, 1); (4, 3); (4, 0); (0, 0); (0, 1); (0, 3)]);
    try reflexivity.
  - repeat (apply NoDup_cons; split;
            [intros Hin;
             repeat (apply elem_of_cons in Hin as [Hin|Hin]; [lia|]);
             by apply elem_of_nil in Hin|]).
    apply NoDup_nil_2.
  - apply list_elem_of_further, list_elem_of_here.
Defined.

(** ** Loss *)

Lemma ln_above_one (c : R) : (1 < c)%R -> (0 < ln c)%R.
Proof. intros Hc. rewrite <-ln_1. apply ln_increasing; lra. Qed.

Lemma class_weights_positive : Forall (fun w => (0 < w)%R) class_weights.
Proof.
  unfold class_weights. cbn [map].
  repeat (apply List.Forall_cons; [apply ln_above_one; lra|]).
  apply List.Forall_nil.
Qed.

Lemma sum_R_nonneg (xs : list R) :
  Forall (fun v => (0 <= v)%R) xs -> (0 <= sum_R xs)%R.
Proof.
  induction 1 as [|v xs Hv _ IH]; [cbn; lra|]. rewrite sum_R_cons. lra.
Qed.

Lemma sum_R_ge_entry (xs : list R) (i : nat) (v : R) :
  Forall (fun v => (0 <= v)%R) xs -> xs !! i = Some v -> (v <= sum_R xs)%R.
Proof.
  intros Hnn. revert i. induction Hnn as [|w xs Hw Hnn IH]; intros i Hi;
    [done|].
  rewrite sum_R_cons. destruct i as [|i]; cbn in Hi.
  - injection Hi as ->. pose proof (sum_R_nonneg xs Hnn). lra.
  - pose proof (IH i Hi). lra.
Qed.

Lemma softmax_range (x : list R) (y : nat) :
  (y < length x)%nat -> (0 < softmax x y <= 1)%R.
Proof.
  intros Hy. unfold softmax.
  destruct (lookup_lt_is_Some_2 x y Hy) as [xy Hxy].
  rewrite (nth_lookup_Some x y 0%R xy Hxy).
  assert (0 < sum_R (map exp x))%R as Hs.
  { apply sum_exp_pos. by destruct x. }
  assert (exp xy <= sum_R (map exp x))%R as Hle.
  { apply (sum_R_ge_entry _ y).
    - apply Forall_map, Forall_true. intros v. cbn. left. apply exp_pos.
    - by rewrite list_lookup_fmap, Hxy. }
  pose proof (exp_pos xy). split.
  - by apply Rdiv_lt_0_compat.
  - apply (Rmult_le_reg_r (sum_R (map exp x))); [done|].
    unfold Rdiv. rewrite Rmult_assoc, Rinv_l by lra. lra.
Qed.

Lemma weighted_cross_entropy_nonneg (x : list R) (y : Z) :
  length x = 5%nat -> 0 <= y < 5 -> (0 <= weighted_cross_entropy x y)%R.
Proof.
  intros Hx Hy. unfold weighted_cross_entropy.
  destruct (lookup_lt_is_Some_2 class_weights (Z.to_nat y)) as [w Hw].
  { rewrite class_weights_length. lia. }
  rewrite (nth_lookup_Some _ _ 0%R w Hw).
  pose proof class_weights_positive as Hpos.
  rewrite Forall_lookup in Hpos. pose proof (Hpos _ _ Hw) as Hwpos.
  destruct (softmax_range x (Z.to_nat y)) as [Hs0 Hs1]; [lia|].
  assert (ln (softmax x (Z.to_nat y)) <= 0)%R as Hln.
  { destruct Hs1 as [Hlt| ->]; [|rewrite ln_1; lra].
    rewrite <-ln_1. left. by apply ln_increasing. }
  nra.
Qed.

Lemma positions_valid (tokens : list Z) : forall logits labels,
  Forall (fun x : list R => length x = 5%nat) logits ->
  Forall (fun y => 0 <= y < 5) labels ->
  Forall (fun p : Z * list R * Z => length p.1.2 = 5%nat /\ 0 <= p.2 < 5)
         (positions tokens logits labels).
Proof.
  unfold positions.
  induction tokens as [|t tokens IH]; intros [|x logits] [|y labels] Hx Hy;
    try constructor.
  - apply Forall_cons in Hx as [Hx _]. by apply Forall_cons in Hy as [Hy _].
  - apply Forall_cons in Hx as [_ Hx]. apply Forall_cons in Hy as [_ Hy].
    by apply IH.
Qed.

Lemma masked_cross_entropy_nonneg pad tokens logits labels :
  Forall (fun x : list R => length x = 5%nat) logits ->
  Forall (fun y => 0 <= y < 5) labels ->
  (0 <= masked_cross_entropy pad tokens logits labels)%R.
Proof.
  intros Hx Hy. unfold masked_cross_entropy.
  apply sum_R_nonneg, Forall_map.
  pose proof (positions_valid tokens _ _ Hx Hy) as Hv.
  rewrite Forall_forall in Hv. apply Forall_forall. intros p Hin.
  apply list_elem_of_filter in Hin as [_ Hin].
  destruct (Hv p Hin). by apply weighted_cross_entropy_nonneg.
Qed.

Lemma compute_without_cross_entropy (tok : tokenizer) (net : network)
    (head : crf_head) (toks ids labels : list (list Z))
    (h : hidden_states net) (logits : list (list (list R))) (ll : R) :
  transformer_model net toks (where_ne toks (pad_token_id tok)) = Ok h ->
  linear_layer net h = Ok logits ->
  crf_layer net logits labels (where_ne toks (pad_token_id tok)) = Ok ll ->
  compute tok net head (toks, ids, labels) false false = Ok (Loss (- ll)).
Proof.
  intros Ht Hlin Hcrf. unfold compute.
  rewrite Ht. cbn. rewrite Hlin. cbn. by rewrite Hcrf.
Qed.

(** X13: the five class weights are positive and the cross-entropy of a
    token is not negative, so the cross-entropy term never lowers the
    loss: when the layers return and the shapes agree, the loss with the
    cross-entropy option is the loss without it plus a term that is not
    negative. *)
Theorem cross_entropy_term_not_negative (tok : tokenizer) (net : network)
    (head : crf_head) (toks ids labels : list (list Z))
    (h : hidden_states net) (logits : list (list (list R))) (ll : R) :
  transformer_model net toks (where_ne toks (pad_token_id tok)) = Ok h ->
  linear_layer net h = Ok logits ->
  crf_layer net logits labels (where_ne toks (pad_token_id tok)) = Ok ll ->
  out_features head = 5%nat ->
  length (concat logits) = length (concat toks) ->
  length (concat labels) = length (concat toks) ->
  Forall (fun x => length x = 5%nat) (concat logits) ->
  Forall (fun y => 0 <= y < 5) (concat labels) ->
  Forall (fun w => (0 < w)%R) class_weights /\
  exists plain term : R,
    compute tok net head (toks, ids, labels) false false = Ok (Loss plain) /\
    compute tok net head (toks, ids, labels) false true =
      Ok (Loss (term + plain)) /\
    (0 <= term)%R.
Proof.
  intros Ht Hlin Hcrf Hout Hlog Hlab Hx Hy.
  split; [apply class_weights_positive|].
  exists (- ll)%R, (masked_cross_entropy (pad_token_id tok) (concat toks)
                      (concat logits) (concat labels)).
  split; [by eapply compute_without_cross_entropy|].
  split; [by eapply compute_combined_loss|].
  by apply masked_cross_entropy_nonneg.
Qed.

Lemma cross_entropy_term_not_negative_witness :
  Forall (fun w => (0 < w)%R) class_weights /\
  exists plain term : R,
    compute Demo.tok Demo.net Demo.head
      (Demo.batch.1.1, where_eq Demo.batch.1.2 103, Demo.batch.2)
      false false = Ok (Loss plain) /\
    compute Demo.tok Demo.net Demo.head
      (Demo.batch.1.1, where_eq Demo.batch.1.2 103, Demo.batch.2)
      false true = Ok (Loss (term + plain)) /\
    (0 <= term)%R.
Proof.
  apply (cross_entropy_term_not_negative Demo.tok Demo.net
           Demo.head Demo.batch.1.1 (where_eq Demo.batch.1.2 103)
           Demo.batch.2 Demo.batch.1.1
           (map (map (fun _ => [0; 0; 0; 0; 0]%R)) Demo.batch.1.1) (-1)%R).
  - reflexivity.
  - reflexivity.
  - reflexivity.
  - vm_compute. reflexivity.
  - reflexivity.
  - reflexivity.
  - cbn. repeat (apply List.Forall_cons; [reflexivity|]). apply List.Forall_nil.
  - cbn. repeat (apply List.Forall_cons; [lia|]). apply List.Forall_nil.
Defined.

Lemma masked_cross_entropy_all_pad pad tokens logits labels :
  Forall (fun t => t = pad) tokens ->
  masked_cross_entropy pad tokens logits labels = 0%R.
Proof.
  unfold masked_cross_entropy, positions. intros Hpad. revert logits labels.
  induction Hpad as [|t tokens -> _ IH]; intros [|x logits] [|y labels];
    try reflexivity.
  cbn [zip zip_with]. rewrite filter_cons_False by (cbn; tauto). apply IH.
Qed.

(** X14: positions that hold the pad token add nothing to the loss: on a
    batch of pad tokens only, as a batch of empty comments is, the loss
    with the cross-entropy option is the negative log-likelihood alone. *)
Theorem compute_loss_all_pad (tok : tokenizer) (net : network)
    (head : crf_head) (toks ids labels : list (list Z))
    (h : hidden_states net) (logits : list (list (list R))) (ll : R) :
  transformer_model net toks (where_ne toks (pad_token_id tok)) = Ok h ->
  linear_layer net h = Ok logits ->
  crf_layer net logits labels (where_ne toks (pad_token_id tok)) = Ok ll ->
  out_features head = 5%nat ->
  length (concat logits) = length (concat toks) ->
  length (concat labels) = length (concat toks) ->
  Forall (fun x => length x = 5%nat) (concat logits) ->
  Forall (fun y => 0 <= y < 5) (concat labels) ->
  Forall (fun t => t = pad_token_id tok) (concat toks) ->
  compute tok net head (toks, ids, labels) false true = Ok (Loss (- ll)).
Proof.
  intros Ht Hlin Hcrf Hout Hlog Hlab Hx Hy Hpad.
  rewrite (compute_combined_loss _ _ _ _ _ _ _ _ _ Ht Hlin Hcrf Hout Hlog
             Hlab Hx Hy).
  rewrite masked_cross_entropy_all_pad by done. do 2 f_equal. lra.
Qed.

Lemma compute_loss_all_pad_witness :
  compute Demo.tok Demo.net Demo.head
    ([[0; 0]; [0; 0]], [[0; 0]; [0; 0]], [[0; 0]; [0; 0]]) false true =
    Ok (Loss (- (-1))).
Proof.
  apply (compute_loss_all_pad Demo.tok Demo.net Demo.head
           [[0; 0]; [0; 0]] [[0; 0]; [0; 0]] [[0; 0]; [0; 0]]
           [[0; 0]; [0; 0]]
           (map (map (fun _ => [0; 0; 0; 0; 0]%R)) [[0; 0]; [0; 0]]) (-1)%R).
  - reflexivity.
  - reflexivity.
  - reflexivity.
  - vm_compute. reflexivity.
  - reflexivity.
  - reflexivity.
  - cbn. repeat (apply List.Forall_cons; [reflexivity|]). apply List.Forall_nil.
  - cbn. repeat (apply List.Forall_cons; [lia|]). apply List.Forall_nil.
  - cbn. repeat (apply List.Forall_cons; [reflexivity|]). apply List.Forall_nil.
Defined.

(** ** Training loop *)

Section TrainEdges.

Context (tok : tokenizer) (cfg : data_config) (net : network)
        (head : crf_head).

(** The trace of the loop however it ends, and where it ended. *)
Lemma train_loop_trace_any (g : generated streams) :
  forall (n : nat) events ended,
    train_loop tok cfg net head (Z.of_nat n) g = (events, ended) ->
    exists losses,
      events = concat (imap (fun k => batch_events (n + k)) losses) /\
      Forall2 (fun batch v => batch_loss tok cfg net head batch = Ok v)
              (take (length losses) (yielded g)) losses /\
      match ended with
      | None => length losses = length (yielded g) /\ thrown g = None
      | Some e =>
          (exists batch, yielded g !! length losses = Some batch /\
                         batch_loss tok cfg net head batch = Raise e) \/
          (length losses = length (yielded g) /\ thrown g = Some e)
      end.
Proof.
  induction g as [|batch rest IH|e]; intros n events ended; cbn [train_loop].
  - intros [= <- <-]. exists []. repeat split; constructor.
  - destruct (batch_loss tok cfg net head batch) as [v|e] eqn:Ev.
    + replace (Z.of_nat n + 1) with (Z.of_nat (S n)) by lia.
      destruct (train_loop _ _ _ _ _ rest) as [events' ended'] eqn:Er.
      intros [= <- <-].
      destruct (IH (S n) events' ended' Er) as (losses & -> & Hl & Hend).
      exists (v :: losses). split; [|split].
      * rewrite imap_cons. cbn [concat]. unfold batch_events at 2.
        rewrite step_condition, Nat.add_0_r, <-!app_assoc.
        rewrite (imap_ext ((fun k => batch_events (n + k)) ∘ S)
                          (fun k => batch_events (S n + k)))
          by (intros k x _; unfold compose; f_equal; lia).
        reflexivity.
      * cbn. by constructor.
      * destruct ended' as [e|]; cbn [length yielded thrown].
        -- destruct Hend as [(b & Hb & Hr)|[Hlen Hth]];
             [left; by exists b|right; by rewrite Hlen].
        -- destruct Hend as [Hlen Hth]. by rewrite Hlen.
    + intros [= <- <-]. exists []. split; [done|]. split; [constructor|].
      left. by exists batch.
  - intros [= <- <-]. exists []. split; [done|]. split; [constructor|].
    by right.
Qed.

Lemma last_batch_events (k : nat) (v : R) :
  exists pre x, batch_events k v = pre ++ [x] /\ x <> Step.
Proof.
  unfold batch_events. destruct (_ =? _)%nat.
  - by exists [Print v; Backward v; Step], ZeroGrad.
  - by exists [Print v], (Backward v).
Qed.

Lemma last_trace_not_step (losses : list R) : forall (n : nat) pre,
  last pre <> Some Step ->
  last (pre ++ concat (imap (fun k => batch_events (n + k)) losses)) <>
    Some Step.
Proof.
  induction losses as [|v losses IH]; intros n pre Hpre.
  - cbn. by rewrite app_nil_r.
  - rewrite imap_cons. cbn [concat]. rewrite app_assoc.
    rewrite (imap_ext ((fun k => batch_events (n + k)) ∘ S)
                      (fun k => batch_events (S n + k)))
      by (intros k x _; unfold compose; f_equal; lia).
    apply IH.
    destruct (last_batch_events (n + 0) v) as (p & x & -> & Hx).
    rewrite app_assoc, last_snoc. congruence.
Qed.

Lemma generated_none {B} (g : generated B) :
  thrown g = None -> length (yielded g) = 0%nat -> g = Stop.
Proof. by destruct g. Qed.

End TrainEdges.

(** X15: when a batch fails in [compute], or the generator raises, [train]
    ends with that exception after the batches before it were
    back-propagated: the optimizer has stepped once for every four of
    them, the final step is not performed, and the run does not end on a
    step, so what the batches after the last step accumulated is never
    applied. *)
Theorem train_failure_skips_final_step {X} (tok : tokenizer)
    (cfg : data_config) (net : network) (head : crf_head)
    (dataset : list (thread_batch X)) (events : list event) (e : exn) :
  train tok cfg net head dataset = (events, Some e) ->
  let g := get_comment_wise_dataset tok cfg dataset 512 8 in
  exists losses : list R,
    events = ZeroGrad :: concat (imap batch_events losses) /\
    Forall2 (fun batch v => batch_loss tok cfg net head batch = Ok v)
            (take (length losses) (yielded g)) losses /\
    ((exists batch, yielded g !! length losses = Some batch /\
                    batch_loss tok cfg net head batch = Raise e) \/
     (length losses = length (yielded g) /\ thrown g = Some e)) /\
    count_steps events = (length losses / 4)%nat /\
    last events <> Some Step.
Proof.
  unfold train. cbv zeta.
  destruct (train_loop _ _ _ _ _ _) as [evs ended] eqn:Er.
  destruct ended as [e'|]; [|done]. intros [= <- <-].
  destruct (train_loop_trace_any tok cfg net head _ 0%nat evs _ Er)
    as (losses & -> & Hl & Hend).
  exists losses. split; [done|]. split; [done|]. split; [done|]. split.
  - change (ZeroGrad :: ?l) with ([ZeroGrad] ++ l).
    rewrite count_steps_app, (count_steps_trace losses 0).
    change (count_steps [ZeroGrad]) with 0%nat.
    change (0 mod 4)%nat with 0%nat. lia.
  - change (ZeroGrad :: ?l) with ([ZeroGrad] ++ l).
    by apply (last_trace_not_step losses 0 [ZeroGrad]).
Qed.

Lemma train_failure_skips_final_step_witness :
  exists losses : list R,
    [ZeroGrad] = ZeroGrad :: concat (imap batch_events losses) /\
    losses = [].
Proof.
  destruct (train_failure_skips_final_step Demo.tok Demo.cfg Demo.net
              {| in_features := 768; out_features := 7; num_tags := 7;
                 constraints := [];
                 include_start_end_transitions := false |}
              Demo.long_dataset [ZeroGrad] RuntimeError eq_refl)
    as (losses & Hev & Hl & _).
  exists losses. split; [exact Hev|].
  destruct losses as [|v losses]; [done|]. discriminate.
Defined.

Lemma trace_last_batch (losses : list R) (v : R) :
  concat (imap batch_events (losses ++ [v])) =
  concat (imap batch_events losses) ++ [Print v; Backward v] ++
  (if Nat.eqb (length (losses ++ [v]) mod 4) 0 then [Step; ZeroGrad] else []).
Proof.
  rewrite imap_app, concat_app. cbn [imap concat]. rewrite app_nil_r.
  unfold batch_events at 2. rewrite length_app. cbn [length].
  by rewrite Nat.add_0_r.
Qed.

(** X16: how a normal run of [train] ends.  Without any batch it is a
    gradient reset and a step.  When the number of batches is not a
    multiple of four, the final step follows the last back-propagation and
    applies the partial window.  When it is a positive multiple of four,
    the loop has just stepped and reset the gradients, and the final step
    follows that reset with nothing accumulated. *)
Theorem train_final_step {X} (tok : tokenizer) (cfg : data_config)
    (net : network) (head : crf_head) (dataset : list (thread_batch X))
    (events : list event) :
  train tok cfg net head dataset = (events, None) ->
  let n := length (yielded (get_comment_wise_dataset tok cfg dataset 512 8)) in
  (n = 0%nat -> events = [ZeroGrad; Step]) /\
  ((n mod 4)%nat <> 0%nat ->
   exists before v, events = before ++ [Backward v; Step]) /\
  (n <> 0%nat -> (n mod 4)%nat = 0%nat ->
   exists before v, events = before ++ [Backward v; Step; ZeroGrad; Step]).
Proof.
  unfold train. cbv zeta.
  destruct (train_loop _ _ _ _ _ _) as [evs ended] eqn:Er.
  destruct ended as [e|]; [done|]. intros [= <-].
  destruct (train_loop_trace tok cfg net head _ 0%nat evs Er)
    as (losses & Hl & ->).
  apply Forall2_length in Hl. rewrite Hl. clear Hl Er.
  change (fun k : nat => batch_events (0 + k)) with batch_events.
  destruct losses as [|v losses _] using rev_ind.
  - split; [done|]. split; [done|]. cbn [length]. lia.
  - rewrite trace_last_batch. split; [|split].
    + rewrite length_app. cbn. lia.
    + intros Hn. apply Nat.eqb_neq in Hn. rewrite Hn.
      exists (ZeroGrad :: concat (imap batch_events losses) ++ [Print v]), v.
      cbn. by rewrite <-!app_assoc.
    + intros _ Hn. apply Nat.eqb_eq in Hn. rewrite Hn.
      exists (ZeroGrad :: concat (imap batch_events losses) ++ [Print v]), v.
      cbn. by rewrite <-!app_assoc.
Qed.

Lemma train_final_step_witness :
  exists before v,
    (train Demo.tok Demo.cfg Demo.net Demo.head Demo.long_dataset).1 =
      before ++ [Backward v; Step; ZeroGrad; Step].
Proof.
  apply (train_final_step Demo.tok Demo.cfg Demo.net Demo.head
           Demo.long_dataset _ eq_refl); [|reflexivity].
  change (4%nat <> 0%nat). discriminate.
Defined.

(** X17: a data set that splits into fewer than eight comments gives
    [train] no batch: the run is a gradient reset and one optimizer step,
    without any back-propagation, and it ends without error. *)
Theorem train_needs_eight_comments {X} (tok : tokenizer) (cfg : data_config)
    (net : network) (head : crf_head) (dataset : list (thread_batch X))
    (comments : streams) :
  collect_comments (user_token_indices tok cfg) (eos_token_id tok)
                   dataset no_rows = Ok comments ->
  (rows comments < 8)%nat ->
  train tok cfg net head dataset = ([ZeroGrad; Step], None).
Proof.
  intros Ec Hrows. unfold train, get_comment_wise_dataset. rewrite Ec.
  destruct comments as [[toks masks] labels].
  apply rows_collect_comments in Ec as [Hm Hl]; [|done..]. cbn in Hm, Hl.
  destruct (batch_loop_counts tok cfg 512 8 ltac:(lia) toks masks labels 0
              no_rows) as (Hth & _ & Hcnt);
    [lia|lia|done|done|done|].
  rewrite (generated_none _ Hth); [done|].
  unfold rows in Hrows. cbn in Hrows.
  change (0 mod 8) with 0 in Hcnt. rewrite Z.add_0_l in Hcnt.
  rewrite Z.div_small in Hcnt by lia. lia.
Qed.

Lemma train_needs_eight_comments_witness :
  train Demo.tok Demo.cfg Demo.net Demo.head Demo.dataset =
    ([ZeroGrad; Step], None).
Proof.
  apply (train_needs_eight_comments Demo.tok Demo.cfg Demo.net Demo.head
           Demo.dataset
           ([[5; 6]; [28996; 7]; [28997; 8; 102];
             []; [28996; 9]; [28997; 10; 11; 102]],
            [[5; 103]; [28996; 7]; [28997; 103; 102];
             []; [28996; 103]; [28997; 10; 11; 102]],
            [[0; 0]; [0; 1]; [0; 3; 0]; []; [0; 1]; [0; 3; 4; 0]])).
  - reflexivity.
  - cbn. lia.
Defined.

(** ** Evaluation loop *)

Example demo_int_to_labels :
  map (fun v => int_to_labels (arg_components Demo.cfg) !! v)
      [0; 1; 2; 3; 4; 5] =
  [Some "O"; Some "B-C"; Some "I-C"; Some "B-P"; Some "I-P"; None].
Proof. vm_compute. reflexivity. Qed.

Section Names.

Lemma fold_names_source (l : list (string * Z)) :
  forall (names : gmap Z string) v k,
  fold_left (fun names kv => <[kv.2 := kv.1]> names) l names !! v = Some k ->
  (k, v) ∈ l \/ names !! v = Some k.
Proof.
  induction l as [|[k' v'] l IH]; intros names v k Hv; [by right|].
  cbn in Hv. apply IH in Hv as [Hin|Hv].
  - left. by apply list_elem_of_further.
  - destruct (decide (v' = v)) as [->|Hne].
    + rewrite lookup_insert_eq in Hv. injection Hv as ->.
      left. apply list_elem_of_here.
    + rewrite lookup_insert_ne in Hv by done. by right.
Qed.

Lemma fold_names_other (l : list (string * Z)) :
  forall (names : gmap Z string) v,
  v ∉ l.*2 ->
  fold_left (fun names kv => <[kv.2 := kv.1]> names) l names !! v =
    names !! v.
Proof.
  induction l as [|[k' v'] l IH]; intros names v Hv; [done|].
  cbn in Hv. apply not_elem_of_cons in Hv as [Hne Hv].
  cbn. rewrite IH by done. by rewrite lookup_insert_ne.
Qed.

Lemma fold_names_found (l : list (string * Z)) :
  forall (names : gmap Z string) v k,
  NoDup l.*2 -> (k, v) ∈ l ->
  fold_left (fun names kv => <[kv.2 := kv.1]> names) l names !! v = Some k.
Proof.
  induction l as [|[k' v'] l IH]; intros names v k Hnd Hin.
  - by apply elem_of_nil in Hin.
  - cbn in Hnd. apply NoDup_cons in Hnd as [Hv' Hnd].
    apply elem_of_cons in Hin as [[= -> ->]|Hin]; cbn.
    + rewrite fold_names_other by done. apply lookup_insert_eq.
    + by apply IH.
Qed.

End Names.

(** X18: [int_to_labels] is the inverse of the tag dictionary: a name it
    gives for an id is a tag with that id, and when no two tags share an
    id every tag comes back from its id, so that
    [int_to_labels[ac_dict[k]]] is [k]. *)
Theorem int_to_labels_inverts (ac_dict : gmap string Z) :
  (forall v k, int_to_labels ac_dict !! v = Some k -> ac_dict !! k = Some v) /\
  ((forall k1 k2 v,
      ac_dict !! k1 = Some v -> ac_dict !! k2 = Some v -> k1 = k2) ->
   forall k v, ac_dict !! k = Some v -> int_to_labels ac_dict !! v = Some k).
Proof.
  unfold int_to_labels. split.
  - intros v k Hv. apply fold_names_source in Hv as [Hin|Hv]; [|done].
    by apply elem_of_map_to_list in Hin.
  - intros Hinj k v Hk. apply fold_names_found.
    + apply NoDup_fmap_2_strong; [|apply NoDup_map_to_list].
      intros [k1 v1] [k2 v2] H1 H2 Hv. cbn in Hv. subst v2.
      apply elem_of_map_to_list in H1, H2. f_equal. by eapply Hinj.
    + by apply elem_of_map_to_list.
Qed.

Lemma demo_tags_distinct (k1 k2 : string) (v : Z) :
  arg_components Demo.cfg !! k1 = Some v ->
  arg_components Demo.cfg !! k2 = Some v -> k1 = k2.
Proof.
  intros H1 H2. apply elem_of_map_to_list in H1, H2.
  remember (map_to_list (arg_components Demo.cfg)) as l eqn:El.
  vm_compute in El. subst l.
  repeat (apply elem_of_cons in H1 as [H1|H1]);
    try (by apply elem_of_nil in H1);
    repeat (apply elem_of_cons in H2 as [H2|H2]);
    try (by apply elem_of_nil in H2);
    congruence.
Defined.

Lemma int_to_labels_inverts_witness :
  int_to_labels (arg_components Demo.cfg) !! 3 = Some "B-P".
Proof.
  apply (proj2 (int_to_labels_inverts (arg_components Demo.cfg))).
  - exact demo_tags_distinct.
  - reflexivity.
Defined.

Lemma count_non_pad (pad : Z) (elem : list Z) (k : nat) :
  pad ∉ elem ->
  foldr Z.add 0 (map (fun x => if x =? pad then 0 else 1)
                     (elem ++ replicate k pad)) =
    Z.of_nat (length elem).
Proof.
  induction elem as [|x elem IH]; intros Hn.
  - cbn [app length]. induction k as [|k IHk]; [done|].
    cbn. by rewrite Z.eqb_refl.
  - apply not_elem_of_cons in Hn as [Hx Hn]. cbn [app map foldr length].
    destruct (Z.eqb_spec x pad); [congruence|]. rewrite IH by done. lia.
Qed.

Lemma slice_to_app_length {A} (xs ys : list A) :
  slice_to (xs ++ ys) (Z.of_nat (length xs)) = xs.
Proof.
  unfold slice_to. destruct (Z.leb_spec 0 (Z.of_nat (length xs))); [|lia].
  rewrite Nat2Z.id. apply take_app_length.
Qed.

Lemma named_rows_unpadded (names : gmap Z string) (pad label_pad : Z)
    (n n' : nat) (labs : list (list Z)) :
  forall elems before,
    map length labs = map length elems ->
    Forall (fun elem => pad ∉ elem) elems ->
    named_rows names
      (before ++
       row_lengths (map (fun e => e ++ replicate (n - length e) pad) elems) pad)
      (length before)
      (map (fun lab => lab ++ replicate (n' - length lab) label_pad) labs) =
    all_label_names names labs.
Proof.
  induction labs as [|lab labs IH]; intros [|elem elems] before Hlen Hpad;
    try done.
  injection Hlen as Hl Hlen. apply Forall_cons in Hpad as [Hp Hpad].
  cbn [map named_rows all_label_names row_lengths where_ne].
  rewrite lookup_app_r, Nat.sub_diag by lia. cbn [lookup list_lookup].
  rewrite count_non_pad by done. rewrite <-Hl, slice_to_app_length.
  specialize (IH elems (before ++ [Z.of_nat (length lab)]) Hlen Hpad).
  rewrite length_app, Nat.add_1_r, <-app_assoc in IH. cbn [app] in IH.
  unfold row_lengths, where_ne in IH. by rewrite IH.
Qed.

(** X19: cutting a label row at the number of non-pad tokens of its token
    row undoes [pad_batch]: for comments that do not contain the pad token
    themselves, the references [evaluate] names are the names of the
    labels of each comment as they were before padding, fill values
    gone. *)
Theorem references_undo_padding (names : gmap Z string)
    (elems labs padded_tokens padded_labels : list (list Z))
    (pad label_pad : Z) :
  pad_batch elems pad = Ok padded_tokens ->
  pad_batch labs label_pad = Ok padded_labels ->
  map length labs = map length elems ->
  Forall (fun elem => pad ∉ elem) elems ->
  named_rows names (row_lengths padded_tokens pad) 0 padded_labels =
    all_label_names names labs.
Proof.
  intros Et El Hlen Hpad. unfold pad_batch in Et, El.
  destruct (max_ (map length elems)) as [n|]; [|done].
  destruct (max_ (map length labs)) as [n'|]; [|done].
  cbn in Et, El. injection Et as <-. injection El as <-.
  apply (named_rows_unpadded names pad label_pad n n' labs elems []
           Hlen Hpad).
Qed.

Lemma references_undo_padding_witness :
  named_rows (int_to_labels (arg_components Demo.cfg))
    (row_lengths [[5; 6; 0]; [28996; 7; 0]; [28997; 8; 102]] 0) 0
    [[0; 0; 0]; [0; 1; 0]; [0; 3; 0]] =
  all_label_names (int_to_labels (arg_components Demo.cfg))
    [[0; 0]; [0; 1]; [0; 3; 0]].
Proof.
  apply (references_undo_padding (int_to_labels (arg_components Demo.cfg))
           [[5; 6]; [28996; 7]; [28997; 8; 102]]
           [[0; 0]; [0; 1]; [0; 3; 0]] _ _ 0 0).
  - reflexivity.
  - reflexivity.
  - reflexivity.
  - repeat (apply List.Forall_cons;
            [intros Hin;
             repeat (apply elem_of_cons in Hin as [Hin|Hin]; [lia|]);
             by apply elem_of_nil in Hin|]).
    apply List.Forall_nil.
Defined.

Lemma label_names_length (names : gmap Z string) (ids : list Z) named :
  label_names names ids = Ok named -> length named = length ids.
Proof.
  revert named. induction ids as [|x ids IH]; intros named; cbn.
  - by intros [= <-].
  - destruct (names !! x); [|done].
    destruct (label_names names ids) as [others|]; [|done].
    cbn. intros [= <-]. cbn. by rewrite (IH others).
Qed.

Lemma named_rows_within (names : gmap Z string) (lengths : list Z)
    (rows : list (list Z)) : forall i named,
  Forall (fun n => 0 <= n) lengths ->
  named_rows names lengths i rows = Ok named ->
  length named = length rows /\
  forall j row, named !! j = Some row ->
    exists n, lengths !! (i + j)%nat = Some n /\ Z.of_nat (length row) <= n.
Proof.
  induction rows as [|r rows IH]; intros i named Hnn; cbn [named_rows].
  - intros [= <-]. split; [done|]. intros j row Hj. done.
  - destruct (lengths !! i) as [n|] eqn:En; [|done].
    destruct (label_names names (slice_to r n)) as [nr|] eqn:Enr; [|done].
    destruct (named_rows names lengths (S i) rows) as [others|] eqn:Eo;
      [|done].
    cbn. intros [= <-]. destruct (IH (S i) others Hnn Eo) as [Hlen Hrows].
    split; [cbn; by rewrite Hlen|].
    intros [|j] row Hj; cbn in Hj.
    + injection Hj as <-. exists n. rewrite Nat.add_0_r. split; [done|].
      rewrite (label_names_length _ _ _ Enr).
      rewrite Forall_lookup in Hnn. pose proof (Hnn _ _ En).
      pose proof (slice_to_bound r n ltac:(lia)). lia.
    + destruct (Hrows j row Hj) as (m & Hm & Hle). exists m.
      by rewrite Nat.add_succ_r.
Qed.

Lemma row_lengths_nonneg (t : list (list Z)) (pad : Z) :
  Forall (fun n => 0 <= n) (row_lengths t pad).
Proof.
  unfold row_lengths, where_ne. rewrite !Forall_map.
  apply Forall_true. intros row. cbn.
  induction row as [|x row IH]; cbn; [lia|]. destruct (x =? pad); lia.
Qed.

(** X20: what a batch gives the metric.  When [evaluate] gets through a
    batch it adds the token rows as they are, one reference row per label
    row, and no prediction or reference row with more names than its token
    row has non-pad tokens. *)
Theorem evaluate_batch_rows (tok : tokenizer) (net : network)
    (head : crf_head) (names : gmap Z string)
    (toks masks labels : list (list Z)) (added : metric_event) :
  evaluate_batch tok net head names (toks, masks, labels) = Ok added ->
  exists preds refs,
    added = AddBatch preds refs toks /\
    length refs = length labels /\
    (forall i row, preds !! i = Some row ->
       exists n, row_lengths toks (pad_token_id tok) !! i = Some n /\
                 Z.of_nat (length row) <= n) /\
    (forall i row, refs !! i = Some row ->
       exists n, row_lengths toks (pad_token_id tok) !! i = Some n /\
                 Z.of_nat (length row) <= n).
Proof.
  unfold evaluate_batch.
  destruct (torch_tensor toks) as [t|] eqn:Et; [|done].
  destruct (torch_tensor masks) as [m|] eqn:Em; [|done].
  destruct (torch_tensor labels) as [l|] eqn:El; [|done].
  apply torch_tensor_inv in Et as ->, Em as ->, El as ->.
  cbn [mbind result_bind].
  destruct (compute _ _ _ _ _ _) as [[c|tagged]|]; cbn [mbind result_bind];
    [done| |done].
  destruct (named_rows names _ 0 (map fst tagged)) as [preds|] eqn:Ep;
    [|done].
  destruct (named_rows names _ 0 labels) as [refs|] eqn:Er; [|done].
  cbn. intros [= <-]. exists preds, refs.
  pose proof (row_lengths_nonneg toks (pad_token_id tok)) as Hnn.
  destruct (named_rows_within _ _ _ _ _ Hnn Ep) as [_ Hp].
  destruct (named_rows_within _ _ _ _ _ Hnn Er) as [Hlen Hr].
  repeat split; done.
Qed.

Lemma evaluate_batch_rows_witness :
  exists preds refs,
    AddBatch [["O"; "O"]; ["O"; "O"]; ["O"; "O"; "O"]; []]
             [["O"; "O"]; ["O"; "B-C"]; ["O"; "B-P"; "O"]; []]
             Demo.batch.1.1 = AddBatch preds refs Demo.batch.1.1 /\
    length refs = length Demo.batch.2 /\
    (forall i row, preds !! i = Some row ->
       exists n, row_lengths Demo.batch.1.1 0 !! i = Some n /\
                 Z.of_nat (length row) <= n) /\
    (forall i row, refs !! i = Some row ->
       exists n, row_lengths Demo.batch.1.1 0 !! i = Some n /\
                 Z.of_nat (length row) <= n).
Proof.
  apply (evaluate_batch_rows Demo.tok Demo.net Demo.head
           (int_to_labels (arg_components Demo.cfg))
           Demo.batch.1.1 Demo.batch.1.2 Demo.batch.2).
  vm_compute. reflexivity.
Defined.

Section EvaluateTrace.

Context (tok : tokenizer) (net : network) (head : crf_head)
        (names : gmap Z string).

Lemma evaluate_batch_adds (batch : streams) (added : metric_event) :
  evaluate_batch tok net head names batch = Ok added ->
  added <> MetricCompute.
Proof.
  destruct batch as [[toks masks] labels]. unfold evaluate_batch.
  destruct (torch_tensor toks) as [t|]; [|done].
  destruct (torch_tensor masks) as [m|]; [|done].
  destruct (torch_tensor labels) as [l|]; [|done].
  cbn [mbind result_bind].
  destruct (compute _ _ _ _ _ _) as [[c|tagged]|]; cbn [mbind result_bind];
    [done| |done].
  destruct (named_rows names _ 0 (map fst tagged)) as [preds|]; [|done].
  destruct (named_rows names _ 0 l) as [refs|]; [|done].
  cbn. by intros [= <-].
Qed.

Lemma evaluate_loop_trace (g : generated streams) : forall events ended,
  evaluate_loop tok net head names g = (events, ended) ->
  Forall2 (fun batch added =>
             evaluate_batch tok net head names batch = Ok added)
          (take (length events) (yielded g)) events /\
  match ended with
  | None => length events = length (yielded g) /\ thrown g = None
  | Some e =>
      (exists batch, yielded g !! length events = Some batch /\
                     evaluate_batch tok net head names batch = Raise e) \/
      (length events = length (yielded g) /\ thrown g = Some e)
  end.
Proof.
  induction g as [|batch rest IH|e]; intros events ended; cbn [evaluate_loop].
  - intros [= <- <-]. split; [constructor|done].
  - destruct (evaluate_batch tok net head names batch) as [a|e] eqn:Ea.
    + destruct (evaluate_loop _ _ _ _ rest) as [events' ended'] eqn:Er.
      intros [= <- <-]. destruct (IH events' ended' eq_refl) as [Hall Hend].
      split; [cbn; by constructor|].
      destruct ended' as [e|]; cbn [length yielded thrown].
      * destruct Hend as [(b & Hb & Hr)|[Hlen Hth]];
          [left; by exists b|right; by rewrite Hlen].
      * destruct Hend as [Hlen Hth]. by rewrite Hlen.
    + intros [= <- <-]. split; [constructor|]. left. by exists batch.
  - intros [= <- <-]. split; [constructor|]. by right.
Qed.

End EvaluateTrace.

(** X21: [evaluate] adds the batches to the metric in the order the
    generator yields them and asks the metric for its value once, after
    the last batch, if every batch went through; when a batch fails, or
    the generator raises, it stops there with that exception and never
    asks for the value. *)
Theorem evaluate_computes_metric_once_at_end {X} (tok : tokenizer)
    (cfg : data_config) (net : network) (head : crf_head)
    (dataset : list (thread_batch X)) (events : list metric_event)
    (ended : option exn) :
  evaluate tok cfg net head dataset = (events, ended) ->
  let g := get_comment_wise_dataset tok cfg dataset 512 8 in
  let names := int_to_labels (arg_components cfg) in
  exists added,
    Forall2 (fun batch a => evaluate_batch tok net head names batch = Ok a)
            (take (length added) (yielded g)) added /\
    (MetricCompute ∉ added) /\
    match ended with
    | None =>
        events = added ++ [MetricCompute] /\
        length added = length (yielded g) /\ thrown g = None
    | Some e =>
        events = added /\
        ((exists batch, yielded g !! length added = Some batch /\
                        evaluate_batch tok net head names batch = Raise e) \/
         (length added = length (yielded g) /\ thrown g = Some e))
    end.
Proof.
  unfold evaluate. cbv zeta.
  destruct (evaluate_loop _ _ _ _ _) as [added ended'] eqn:Er.
  apply evaluate_loop_trace in Er as [Hall Hend].
  assert (MetricCompute ∉ added) as Hnot.
  { intros Hin. apply list_elem_of_lookup in Hin as [i Hi].
    destruct (Forall2_lookup_r _ _ _ _ _ Hall Hi) as (b & _ & Hb).
    by apply evaluate_batch_adds in Hb. }
  destruct ended' as [e|]; intros [= <- <-]; exists added;
    (split; [exact Hall|]); (split; [exact Hnot|]).
  - split; [reflexivity|exact Hend].
  - destruct Hend as [Hlen Hth]. by split.
Qed.

Lemma evaluate_computes_metric_once_at_end_witness :
  exists added,
    Forall2 (fun batch a =>
               evaluate_batch Demo.tok Demo.net Demo.head
                 (int_to_labels (arg_components Demo.cfg)) batch = Ok a)
            (take (length added)
               (yielded (get_comment_wise_dataset Demo.tok Demo.cfg
                           Demo.long_dataset 512 8))) added /\
    (MetricCompute ∉ added) /\
    (evaluate Demo.tok Demo.cfg Demo.net Demo.head Demo.long_dataset).1 =
      added ++ [MetricCompute] /\
    length added =
      length (yielded (get_comment_wise_dataset Demo.tok Demo.cfg
                         Demo.long_dataset 512 8)) /\
    thrown (get_comment_wise_dataset Demo.tok Demo.cfg
              Demo.long_dataset 512 8) = None.
Proof.
  apply (evaluate_computes_metric_once_at_end Demo.tok Demo.cfg Demo.net
           Demo.head Demo.long_dataset
           (evaluate Demo.tok Demo.cfg Demo.net Demo.head Demo.long_dataset).1
           None).
  vm_compute. reflexivity.
Defined.

(** ** Collected comments *)

Lemma append_threads_tokens split_on eos tts : forall mts ctls cw,
  length mts = length tts -> length ctls = length tts ->
  (append_threads split_on eos tts mts ctls cw).1.1 =
    cw.1.1 ++ concat (map (fun t => split_encoding t split_on eos) tts).
Proof.
  induction tts as [|t tts IH]; intros [|m mts] [|l ctls] [[toks masks] labels]
    Hm Hl; try done.
  - cbn. by rewrite app_nil_r.
  - cbn [append_threads map concat].
    destruct (append_comments_slices (split_encoding t split_on eos) m l
                toks masks labels) as (mr & lr & -> & _).
    rewrite IH by (cbn in *; lia). cbn. by rewrite app_assoc.
Qed.

Lemma collect_comments_tokens {X} split_on eos
    (dataset : list (thread_batch X)) : forall cw comments,
  Forall same_thread_count dataset ->
  collect_comments split_on eos dataset cw = Ok comments ->
  comments.1.1 =
    cw.1.1 ++ concat (map (fun t => split_encoding t split_on eos)
                          (all_threads dataset)).
Proof.
  induction dataset as [|[[[T M] L] x] rest IH]; intros cw comments Hsame.
  - cbn. intros [= <-]. by rewrite app_nil_r.
  - cbn [collect_comments].
    destruct (squeeze0 T) as [tts|] eqn:ET; [|done].
    destruct (squeeze0 M) as [mts|] eqn:EM; [|done].
    destruct (squeeze0 L) as [ctls|] eqn:EL; [|done].
    apply squeeze0_inv in ET as ->, EM as ->, EL as ->.
    apply Forall_cons in Hsame as [Hhere Hsame].
    destruct (Hhere tts mts ctls eq_refl eq_refl eq_refl) as [Hm Hl].
    cbn [mbind result_bind]. intros Ec. rewrite (IH _ _ Hsame Ec).
    rewrite append_threads_tokens by done.
    unfold all_threads. cbn [map concat fst lookup list_lookup default].
    by rewrite map_app, concat_app, app_assoc.
Qed.

(** X22: the comments the generator collects are the sub-sequences that
    [split_encoding] returns for each thread, thread after thread and
    batch after batch, when the three arrays of every batch hold as many
    threads; the mask and label streams have one row for each of them. *)
Theorem collected_comments_are_split_threads {X} (tok : tokenizer)
    (cfg : data_config) (dataset : list (thread_batch X))
    (toks masks labels : list (list Z)) :
  Forall same_thread_count dataset ->
  collect_comments (user_token_indices tok cfg) (eos_token_id tok)
                   dataset no_rows = Ok (toks, masks, labels) ->
  toks = concat (map (fun t => split_encoding t (user_token_indices tok cfg)
                                              (eos_token_id tok))
                     (all_threads dataset)) /\
  length masks = length toks /\ length labels = length toks.
Proof.
  intros Hsame Ec. split.
  - apply (collect_comments_tokens _ _ _ _ _ Hsame Ec).
  - apply rows_collect_comments in Ec as [Hm Hl]; [|done..]. cbn in Hm, Hl.
    by split.
Qed.

Lemma collected_comments_are_split_threads_witness :
  [[5; 6]; [28996; 7]; [28997; 8; 102];
   []; [28996; 9]; [28997; 10; 11; 102]] =
  concat (map (fun t => split_encoding t [28996; 28997] 102)
              (all_threads Demo.dataset)).
Proof.
  apply (collected_comments_are_split_threads Demo.tok Demo.cfg Demo.dataset
           _
           [[5; 103]; [28996; 7]; [28997; 103; 102];
            []; [28996; 103]; [28997; 10; 11; 102]]
           [[0; 0]; [0; 1]; [0; 3; 0]; []; [0; 1]; [0; 3; 4; 0]]).
  - apply Forall_cons. split; [|exact (List.Forall_nil _)].
    intros tts mts ctls [= <-] [= <-] [= <-]. by split.
  - reflexivity.
Defined.
